(** * Flashback AI: the rate gauge, the generation orchestrator, the history
      store and the album download, embedded from the TypeScript sources.

    - [src/services/rateLimitService.ts] is module [RateLimitService];
    - the handlers and effects of [src/App.tsx] are module [App];
    - [RateLimitSpec] and [AppSpec] hold the words of the specification,
      [Examples] the data of the examples, and the properties follow.

    Numbers.  Every number these functions touch is integral: [Date.now()]
    is a count of milliseconds, the counts are array lengths and loop
    bounds.  JavaScript numbers are therefore [Z], with [NaN] added where a
    conversion can fail; doubles are exact on integers below 2^53, which
    covers every timestamp and count.

    Effects.  A function of the sources is a computation in [M S]: it
    reads and writes a state [S] and completes normally or by a throw.
    For the rate gauge the state is [localStorage]; for the page it is a
    [World]: the hooks of the component, [localStorage], the keyed history
    store and the events the page has produced.

    Asynchrony.  The requests of [handleGenerateClick] are in flight
    together.  Each has two moments, its start after the staggered delay
    and its settlement when the service answers; the moments of all
    requests happen in the order of their times, and each settlement
    applies its updater to the result map of that moment.  The service is
    a parameter, so a statement about the handler holds for every answer
    and every order of arrival. *)

From Stdlib Require Import ZArith QArith Qminmax String Ascii List Lia Lqa.
From stdpp Require Import base option list gmap strings sorting pretty.

Local Open Scope string_scope.
Local Open Scope Z_scope.
Set Warnings "-register-all".

(** ** JavaScript values and completions *)

Module JS.

Inductive number : Type :=
| NaN
| Num (z : Z).

(** What [JSON.parse] can return. *)
Inductive JSValue : Type :=
| JNull
| JBool (b : bool)
| JNumber (n : Z)
| JString (s : string)
| JArray (items : list JSValue)
| JObject (fields : list (string * JSValue)).

(** What a [throw] carries: [err instanceof Error ? err.message : ...]. *)
Inductive Thrown : Type :=
| Error (message : string)
| NotAnError.

Inductive Completion (A : Type) : Type :=
| Normal (a : A)
| Throw (e : Thrown).
Arguments Normal {A} a.
Arguments Throw {A} e.

(** [!s] for a string: only the empty string is falsy. *)
Definition truthy (s : string) : bool := negb (String.eqb s EmptyString).

(** [x || d] on numbers: [NaN] and [0] are falsy. *)
Definition or_default (x : number) (d : Z) : Z :=
  match x with
  | NaN => d
  | Num 0 => d
  | Num z => z
  end.

Definition sub (a b : number) : number :=
  match a, b with
  | Num x, Num y => Num (x - y)
  | _, _ => NaN
  end.

(** [Math.ceil(x / d)] for a positive integer [d]. *)
Definition ceil_div (x : number) (d : Z) : number :=
  match x with
  | Num z => Num (- ((- z) / d))
  | NaN => NaN
  end.

(** The host functions the sources call.  They belong to the JavaScript
    engine, not to the repository, and stay abstract:
    [JSON_parse s = None] is a [SyntaxError]. *)
Class Platform : Type := {
  JSON_parse : string → option JSValue;
  JSON_stringify : JSValue → string;
  StringToNumber : string → number;
  ToString : JSValue → string;
}.

Section Coercions.
Context `{Platform}.

(** [Number(v)] for an environment setting, [undefined] when unset. *)
Definition Number (v : option string) : number :=
  match v with
  | None => NaN
  | Some s => StringToNumber s
  end.

(** ECMAScript [ToNumber]; arrays and objects go through their string. *)
Definition ToNumber (v : JSValue) : number :=
  match v with
  | JNull => Num 0
  | JBool b => Num (if b then 1 else 0)
  | JNumber n => Num n
  | JString s => StringToNumber s
  | JArray _ | JObject _ => StringToNumber (ToString v)
  end.

(** [v + n] with a number on the right: numeric addition for null,
    booleans and numbers, concatenation for everything else. *)
Definition plus (v : JSValue) (n : Z) : JSValue :=
  match v with
  | JNull => JNumber n
  | JBool b => JNumber ((if b then 1 else 0) + n)
  | JNumber t => JNumber (t + n)
  | JString s => JString (s ++ ToString (JNumber n))
  | JArray _ | JObject _ => JString (ToString v ++ ToString (JNumber n))
  end.
End Coercions.

(** *** State and exceptions *)

Definition M (S A : Type) : Type := S → Completion A * S.

Definition ret {S A} (a : A) : M S A := λ s, (Normal a, s).
Definition throw {S A} (e : Thrown) : M S A := λ s, (Throw e, s).
Definition bind {S A B} (m : M S A) (k : A → M S B) : M S B :=
  λ s, match m s with
       | (Normal a, s') => k a s'
       | (Throw e, s') => (Throw e, s')
       end.
Definition try_catch {S A} (body : M S A) (handler : Thrown → M S A) : M S A :=
  λ s, match body s with
       | (Normal a, s') => (Normal a, s')
       | (Throw e, s') => handler e s'
       end.
Definition try_finally {S A} (body : M S A) (final : M S unit) : M S A :=
  λ s, match body s with
       | (c, s') =>
           match final s' with
           | (Normal _, s'') => (c, s'')
           | (Throw e, s'') => (Throw e, s'')
           end
       end.
Definition gets {S A} (f : S → A) : M S A := λ s, (Normal (f s), s).
Definition modify {S} (f : S → S) : M S unit := λ s, (Normal tt, f s).

(** [for (const x of xs) { await body(x) }] *)
Fixpoint for_of {S A} (xs : list A) (body : A → M S unit) : M S unit :=
  match xs with
  | [] => ret tt
  | x :: rest => bind (body x) (λ _, for_of rest body)
  end.

(** [a.filter(f)] and [a.push(x)]: a [TypeError] unless [a] is an array. *)
Definition TypeError : Thrown := Error "TypeError".

Definition Array_filter {S} (f : JSValue → bool) (a : JSValue) : M S (list JSValue) :=
  match a with
  | JArray items => ret (List.filter f items)
  | _ => throw TypeError
  end.

Definition Array_push {S} (a : JSValue) (x : JSValue) : M S JSValue :=
  match a with
  | JArray items => ret (JArray (items ++ [x]))
  | _ => throw TypeError
  end.

End JS.

Export JS.

Notation "'let*' x ':=' m 'in' k" := (JS.bind m (λ x, k))
  (at level 10, x binder, m at level 100, k at level 200).
Notation "m ';;;' k" := (JS.bind m (λ _, k))
  (at level 100, k at level 200, right associativity).

(** The browser's [localStorage]: string keys, string values. *)
Abbreviation Storage := (gmap string string).

(** ** src/services/rateLimitService.ts *)

Module RateLimitService.
Section Service.
Context `{Platform}.

Definition STORAGE_KEY : string := "generation_history".

(** [import.meta.env]: a setting is a string, or undefined when unset. *)
Record Env : Type := {
  VITE_MAX_PHOTOS : option string;
  VITE_LIMIT_MINUTES : option string;
}.

Definition getItem (k : string) : M Storage (option string) :=
  gets (λ ls : Storage, ls !! k).
Definition setItem (k v : string) : M Storage unit :=
  modify (λ ls : Storage, <[k := v]> ls).

Definition parse (s : string) : M Storage JSValue :=
  match JSON_parse s with
  | Some v => ret v
  | None => throw (Error "SyntaxError")
  end.

(** Lines 67-74. *)
Definition getHistory : M Storage JSValue :=
  try_catch
    (let* stored := getItem STORAGE_KEY in
     match stored with
     | Some s => if truthy s then parse s else ret (JArray [])
     | None => ret (JArray [])
     end)
    (λ e, ret (JArray [])).

(** The callback [ts => now - ts < windowMs]; a comparison with [NaN] is
    false. *)
Definition within (now windowMs : Z) (ts : JSValue) : bool :=
  match sub (Num now) (ToNumber ts) with
  | Num age => bool_decide (age < windowMs)
  | NaN => false
  end.

(** [for (let i = 0; i < count; i++) history.push(now)] *)
Fixpoint push_loop (n : nat) (now : Z) (history : JSValue) : M Storage JSValue :=
  match n with
  | O => ret history
  | S n' => let* history := Array_push history (JNumber now) in
            push_loop n' now history
  end.

(** Lines 13-28; [now] is what [Date.now()] returns. *)
Definition recordGeneration (env : Env) (now : Z) (count : Z) : M Storage unit :=
  let* history := getHistory in
  let* history := push_loop (Z.to_nat count) now history in
  let limitMinutes := or_default (Number (VITE_LIMIT_MINUTES env)) 5 in
  let windowMs := limitMinutes * 60 * 1000 in
  let* filteredHistory := Array_filter (within now windowMs) history in
  setItem STORAGE_KEY (JSON_stringify (JArray filteredHistory)).

Record Limit : Type := {
  allowed : bool;
  remaining : Z;
  resetInMinutes : number;
  resetAt : JSValue;
  maxPhotos : Z;
  limitMinutes : Z;
}.

(** Lines 35-65. *)
Definition checkLimit (env : Env) (now : Z) (requestedCount : Z) : M Storage Limit :=
  let maxPhotos := or_default (Number (VITE_MAX_PHOTOS env)) 10 in
  let limitMinutes := or_default (Number (VITE_LIMIT_MINUTES env)) 5 in
  let windowMs := limitMinutes * 60 * 1000 in
  let* history := getHistory in
  let* activeHistory := Array_filter (within now windowMs) history in
  let currentCount := Z.of_nat (length activeHistory) in
  let allowed := bool_decide (currentCount + requestedCount ≤ maxPhotos) in
  let remaining := Z.max 0 (maxPhotos - currentCount) in
  let reset :=
    match activeHistory with
    | oldestRelevant :: _ =>
        if negb allowed then
          let msUntilReset := sub (Num windowMs) (sub (Num now) (ToNumber oldestRelevant)) in
          (ceil_div msUntilReset (60 * 1000), plus oldestRelevant windowMs)
        else (Num 0, JNumber 0)
    | [] => (Num 0, JNumber 0)
    end in
  ret {| allowed := allowed;
         remaining := remaining;
         resetInMinutes := reset.1;
         resetAt := reset.2;
         maxPhotos := maxPhotos;
         limitMinutes := limitMinutes |}.

End Service.
End RateLimitService.

(** ** A small host for the examples

    [JSON.parse], [JSON.stringify], [Number] and [String] on the texts and
    values the examples use: null, the booleans, decimal integers and flat
    arrays of them, which covers what [recordGeneration] writes.  On these
    the functions agree with the engine's; the general statements below
    hold for any [Platform]. *)

Module Host.

Definition digit (c : ascii) : option Z :=
  let n := Z.of_nat (nat_of_ascii c) in
  if bool_decide (48 ≤ n ≤ 57) then Some (n - 48) else None.

Fixpoint digits (s : string) (acc : Z) : option Z :=
  match s with
  | EmptyString => Some acc
  | String c rest =>
      match digit c with
      | Some d => digits rest (10 * acc + d)
      | None => None
      end
  end.

(** A run of at least one digit. *)
Definition natural (s : string) : option Z :=
  match s with
  | EmptyString => None
  | _ => digits s 0
  end.

(** A JSON integer: an optional minus sign, no leading zero. *)
Definition integer (s : string) : option Z :=
  match s with
  | String "-" rest => Z.opp <$> natural rest
  | String "0" (String _ _) => None
  | _ => natural s
  end.

Fixpoint split_commas (s cur : string) : list string :=
  match s with
  | EmptyString => [cur]
  | String "," rest => cur :: split_commas rest EmptyString
  | String c rest => split_commas rest (cur ++ String c EmptyString)
  end.

Definition scalar (s : string) : option JSValue :=
  if String.eqb s "null" then Some JNull
  else if String.eqb s "true" then Some (JBool true)
  else if String.eqb s "false" then Some (JBool false)
  else JNumber <$> integer s.

Fixpoint strip_last (s : string) : option string :=
  match s with
  | EmptyString => None
  | String "]" EmptyString => Some EmptyString
  | String c rest => String c <$> strip_last rest
  end.

Definition parse (s : string) : option JSValue :=
  match s with
  | String "[" rest =>
      match strip_last rest with
      | Some EmptyString => Some (JArray [])
      | Some body => JArray <$> mapM scalar (split_commas body EmptyString)
      | None => None
      end
  | _ => scalar s
  end.

Fixpoint join (parts : list string) : string :=
  match parts with
  | [] => EmptyString
  | [p] => p
  | p :: rest => p ++ "," ++ join rest
  end.

Fixpoint toString (v : JSValue) : string :=
  match v with
  | JNull => "null"
  | JBool true => "true"
  | JBool false => "false"
  | JNumber n => pretty n
  | JString s => s
  | JArray items =>
      join ((fix each (l : list JSValue) : list string :=
               match l with
               | [] => []
               | JNull :: r => EmptyString :: each r
               | x :: r => toString x :: each r
               end) items)
  | JObject _ => "[object Object]"
  end.

(** [JSON.stringify] of null, a boolean, an integer, or an array of these. *)
Definition stringify (v : JSValue) : string :=
  match v with
  | JArray items => "[" ++ join (toString <$> items) ++ "]"
  | _ => toString v
  end.

(** [Number(s)] for a string: empty is 0, a signed decimal is its value. *)
Definition toNumber (s : string) : number :=
  match s with
  | EmptyString => Num 0
  | String "+" rest => from_option Num NaN (natural rest)
  | String "-" rest => from_option (λ z, Num (- z)) NaN (natural rest)
  | _ => from_option Num NaN (natural s)
  end.

Definition host : Platform := {|
  JSON_parse := parse;
  JSON_stringify := stringify;
  StringToNumber := toNumber;
  ToString := toString;
|}.

End Host.


(** ** src/App.tsx *)

Module App.

Module ImageStatus.
Inductive t : Type := pending | done | error.

#[global] Instance eq_dec : EqDecision t.
Proof. solve_decision. Defined.
End ImageStatus.

(** Lines 92-97. *)
Record GeneratedImage : Type := {
  status : ImageStatus.t;
  url : option string;
  error : option string;
}.

Inductive AppState : Type := idle | image_uploaded | generating | results_shown.

#[global] Instance AppState_eq_dec : EqDecision AppState.
Proof. solve_decision. Defined.

(** The [HistoryItem] interface of the history sidebar. *)
Module HistoryItem.
Record t : Type := {
  id : string;
  timestamp : Z;
  originalImage : string;
  aspectRatio : option Q;
  selectedDecades : list string;
  generatedImages : gmap string GeneratedImage;
  appState : AppState;
}.
End HistoryItem.

(** The state hooks of [App], lines 117-127. *)
Record State : Type := {
  uploadedImage : option string;
  imageAspectRatio : Q;
  generatedImages : gmap string GeneratedImage;
  isLoading : bool;
  isDownloading : bool;
  appState : AppState;
  selectedDecades : list string;
  selectedImage : option (string * string);
  history : list HistoryItem.t;
  isHistoryOpen : bool;
  currentSessionId : option string;
}.

(** What the handlers do to the page and the console. *)
Inductive Event : Type :=
| console_log (message : string)
| console_error (message : string)
| alert (message : string)
| download (href filename : string)
| request (image prompt : string).

(** Everything a handler can read or change: the hooks, [localStorage],
    the keyed history store behind [dbService], and the events so far. *)
Record World : Type := {
  react : State;
  localStorage : Storage;
  db : gmap string HistoryItem.t;
  trace : list Event;
}.

(** *** The setters of the hooks *)

Definition with_react (f : State → State) (w : World) : World :=
  {| react := f (react w); localStorage := localStorage w;
     db := db w; trace := trace w |}.
Definition with_localStorage (f : Storage → Storage) (w : World) : World :=
  {| react := react w; localStorage := f (localStorage w);
     db := db w; trace := trace w |}.
Definition with_db (f : gmap string HistoryItem.t → gmap string HistoryItem.t)
    (w : World) : World :=
  {| react := react w; localStorage := localStorage w;
     db := f (db w); trace := trace w |}.
Definition with_trace (f : list Event → list Event) (w : World) : World :=
  {| react := react w; localStorage := localStorage w;
     db := db w; trace := f (trace w) |}.

Definition emit (e : Event) : M World unit :=
  modify (with_trace (λ t, (t ++ [e])%list)).

Definition setUploadedImage (v : option string) : M World unit :=
  modify (with_react (λ s,
    {| uploadedImage := v; imageAspectRatio := imageAspectRatio s;
       generatedImages := generatedImages s; isLoading := isLoading s;
       isDownloading := isDownloading s; appState := appState s;
       selectedDecades := selectedDecades s; selectedImage := selectedImage s;
       history := history s; isHistoryOpen := isHistoryOpen s;
       currentSessionId := currentSessionId s |})).
Definition setImageAspectRatio (v : Q) : M World unit :=
  modify (with_react (λ s,
    {| uploadedImage := uploadedImage s; imageAspectRatio := v;
       generatedImages := generatedImages s; isLoading := isLoading s;
       isDownloading := isDownloading s; appState := appState s;
       selectedDecades := selectedDecades s; selectedImage := selectedImage s;
       history := history s; isHistoryOpen := isHistoryOpen s;
       currentSessionId := currentSessionId s |})).
(** [setGeneratedImages(prev => f(prev))]; a plain value is a constant [f]. *)
Definition setGeneratedImages
    (f : gmap string GeneratedImage → gmap string GeneratedImage) : M World unit :=
  modify (with_react (λ s,
    {| uploadedImage := uploadedImage s; imageAspectRatio := imageAspectRatio s;
       generatedImages := f (generatedImages s); isLoading := isLoading s;
       isDownloading := isDownloading s; appState := appState s;
       selectedDecades := selectedDecades s; selectedImage := selectedImage s;
       history := history s; isHistoryOpen := isHistoryOpen s;
       currentSessionId := currentSessionId s |})).
Definition setIsLoading (v : bool) : M World unit :=
  modify (with_react (λ s,
    {| uploadedImage := uploadedImage s; imageAspectRatio := imageAspectRatio s;
       generatedImages := generatedImages s; isLoading := v;
       isDownloading := isDownloading s; appState := appState s;
       selectedDecades := selectedDecades s; selectedImage := selectedImage s;
       history := history s; isHistoryOpen := isHistoryOpen s;
       currentSessionId := currentSessionId s |})).
Definition setIsDownloading (v : bool) : M World unit :=
  modify (with_react (λ s,
    {| uploadedImage := uploadedImage s; imageAspectRatio := imageAspectRatio s;
       generatedImages := generatedImages s; isLoading := isLoading s;
       isDownloading := v; appState := appState s;
       selectedDecades := selectedDecades s; selectedImage := selectedImage s;
       history := history s; isHistoryOpen := isHistoryOpen s;
       currentSessionId := currentSessionId s |})).
Definition setAppState (v : AppState) : M World unit :=
  modify (with_react (λ s,
    {| uploadedImage := uploadedImage s; imageAspectRatio := imageAspectRatio s;
       generatedImages := generatedImages s; isLoading := isLoading s;
       isDownloading := isDownloading s; appState := v;
       selectedDecades := selectedDecades s; selectedImage := selectedImage s;
       history := history s; isHistoryOpen := isHistoryOpen s;
       currentSessionId := currentSessionId s |})).
Definition setSelectedDecades (v : list string) : M World unit :=
  modify (with_react (λ s,
    {| uploadedImage := uploadedImage s; imageAspectRatio := imageAspectRatio s;
       generatedImages := generatedImages s; isLoading := isLoading s;
       isDownloading := isDownloading s; appState := appState s;
       selectedDecades := v; selectedImage := selectedImage s;
       history := history s; isHistoryOpen := isHistoryOpen s;
       currentSessionId := currentSessionId s |})).
(** [setHistory(prev => f(prev))] *)
Definition setHistory (f : list HistoryItem.t → list HistoryItem.t) : M World unit :=
  modify (with_react (λ s,
    {| uploadedImage := uploadedImage s; imageAspectRatio := imageAspectRatio s;
       generatedImages := generatedImages s; isLoading := isLoading s;
       isDownloading := isDownloading s; appState := appState s;
       selectedDecades := selectedDecades s; selectedImage := selectedImage s;
       history := f (history s); isHistoryOpen := isHistoryOpen s;
       currentSessionId := currentSessionId s |})).
Definition setIsHistoryOpen (v : bool) : M World unit :=
  modify (with_react (λ s,
    {| uploadedImage := uploadedImage s; imageAspectRatio := imageAspectRatio s;
       generatedImages := generatedImages s; isLoading := isLoading s;
       isDownloading := isDownloading s; appState := appState s;
       selectedDecades := selectedDecades s; selectedImage := selectedImage s;
       history := history s; isHistoryOpen := v;
       currentSessionId := currentSessionId s |})).
Definition setCurrentSessionId (v : option string) : M World unit :=
  modify (with_react (λ s,
    {| uploadedImage := uploadedImage s; imageAspectRatio := imageAspectRatio s;
       generatedImages := generatedImages s; isLoading := isLoading s;
       isDownloading := isDownloading s; appState := appState s;
       selectedDecades := selectedDecades s; selectedImage := selectedImage s;
       history := history s; isHistoryOpen := isHistoryOpen s;
       currentSessionId := v |})).

(** [!v] for a hook that holds a string or null. *)
Definition present (v : option string) : bool :=
  match v with
  | Some s => truthy s
  | None => false
  end.

(** *** The keyed history store *)

(** Modelled from the spec: [dbService] (services/dbService) is not among
    the sources.  Section 4.2 gives its contract: "upsert a session record
    keyed by session identifier; list all records ordered newest-first;
    delete by identifier". *)
Definition saveHistoryItem (item : HistoryItem.t) : M World unit :=
  modify (with_db (λ store, <[HistoryItem.id item := item]> store)).

Definition newer (a b : HistoryItem.t) : Prop :=
  HistoryItem.timestamp b ≤ HistoryItem.timestamp a.

#[global] Instance newer_dec a b : Decision (newer a b).
Proof. unfold newer. apply _. Defined.

(** Modelled from the spec: the listing of [dbService], newest first. *)
Definition getAllHistory : M World (list HistoryItem.t) :=
  gets (λ w, merge_sort newer (map_to_list (db w)).*2).

(** Modelled from the spec: the deletion of [dbService], by identifier. *)
Definition deleteHistoryItem (id : string) : M World unit :=
  modify (with_db (λ store, delete id store)).

(** *** The generation requests *)

(** What one call of [generateDecadeImage] does: it settles [latency]
    milliseconds after it starts, with an image reference or an error. *)
Record Response : Type := {
  latency : nat;
  outcome : Completion string;
}.

(** The two moments of one [processDecade]: its request leaves, its
    request settles. *)
Inductive Step : Type :=
| Start (decade : string)
| Settle (decade : string) (result : Completion string).

Definition earlier (a b : Z * Step) : Prop := a.1 ≤ b.1.

#[global] Instance earlier_dec a b : Decision (earlier a b).
Proof. unfold earlier. apply _. Defined.

(** Lines 235 and 277. *)
Definition prompt (decade : string) : string :=
  "Reimagine the person in this photo in the style of the " ++ decade ++
  ". This includes clothing, hairstyle, photo quality, and the overall aesthetic of that decade. The output must be a photorealistic image showing the person clearly.".

(** [err instanceof Error ? err.message : ...], lines 242 and 284. *)
Definition errorMessage (err : Thrown) : string :=
  match err with
  | Error message => message
  | NotAnError => "An unknown error occurred."
  end.

Definition pending_image : GeneratedImage :=
  {| status := ImageStatus.pending; url := None; error := None |}.
Definition done_image (resultUrl : string) : GeneratedImage :=
  {| status := ImageStatus.done; url := Some resultUrl; error := None |}.
Definition error_image (message : string) : GeneratedImage :=
  {| status := ImageStatus.error; url := None; error := Some message |}.

(** The updater a settled request passes to [setGeneratedImages]:
    [prev => ({...prev, [decade]: ...})], lines 237-246 and 279-288. *)
Definition settled (decade : string) (result : Completion string)
    (prev : gmap string GeneratedImage) : gmap string GeneratedImage :=
  match result with
  | Normal resultUrl => <[decade := done_image resultUrl]> prev
  | Throw err => <[decade := error_image (errorMessage err)]> prev
  end.

(** [initialImages], lines 219-222. *)
Definition initialImages (decades : list string) : gmap string GeneratedImage :=
  foldl (λ acc decade, <[decade := pending_image]> acc) ∅ decades.

(** The filter and reduce of lines 336-341: the decades whose image is
    done and has a non-empty url. *)
Definition completed (image : GeneratedImage) : option string :=
  match status image, url image with
  | ImageStatus.done, Some u => if truthy u then Some u else None
  | _, _ => None
  end.

Definition imageData (images : gmap string GeneratedImage) : gmap string string :=
  omap completed images.

(** The updater of the auto-save effect, lines 177-180. *)
Definition upsert (newItem : HistoryItem.t) (prev : list HistoryItem.t)
    : list HistoryItem.t :=
  let filtered :=
    List.filter (λ item, negb (String.eqb (HistoryItem.id item) (HistoryItem.id newItem))) prev in
  take 20 (newItem :: filtered).

Section Handlers.
(** The external generation service (services/geminiService): what it
    answers to an image and a prompt. *)
Variable generateDecadeImage : string → string → Response.

(** The album compositor [createAlbumPage] (lib/albumUtils), which is not
    among the sources: what it answers to a mapping from decade label to
    image reference, a composed image or an error. *)
Variable createAlbumPage : gmap string string → Completion string.

(** [JSON.parse] at the type [HistoryItem[]] that line 138 gives its
    result, with the iteration of line 140: [None] when either throws. *)
Variable JSON_parse_history : string → option (list HistoryItem.t).

Definition await {A} (c : Completion A) : M World A :=
  match c with
  | Normal a => ret a
  | Throw e => throw e
  end.

(** *** initHistory, lines 133-158 *)
Definition initHistory : M World unit :=
  (let* savedHistory := gets (λ w, localStorage w !! "flashback_history") in
   if present savedHistory then
     try_catch
       (let* legacyHistory :=
          match savedHistory ≫= JSON_parse_history with
          | Some items => ret items
          | None => throw (Error "SyntaxError")
          end in
        for_of legacyHistory saveHistoryItem;;;
        modify (with_localStorage (delete "flashback_history"));;;
        emit (console_log "Migrated history from localStorage to IndexedDB"))
       (λ e, emit (console_error "Failed to migrate history"))
   else ret tt);;;
  try_catch
    (let* allHistory := getAllHistory in
     setHistory (λ _, allHistory))
    (λ e, emit (console_error "Failed to load history from IndexedDB")).

(** *** The auto-save effect, lines 164-187; [now] is [Date.now()] *)
Definition newItem (now : Z) (s : State) (sessionId uploaded : string)
    : HistoryItem.t :=
  {| HistoryItem.id := sessionId;
     HistoryItem.timestamp := now;
     HistoryItem.originalImage := uploaded;
     HistoryItem.aspectRatio := Some (imageAspectRatio s);
     HistoryItem.selectedDecades := selectedDecades s;
     HistoryItem.generatedImages := generatedImages s;
     HistoryItem.appState := appState s |}.

Definition autoSave (now : Z) : M World unit :=
  let* s := gets react in
  match uploadedImage s, currentSessionId s with
  | Some uploaded, Some sessionId =>
      if bool_decide (appState s ≠ idle) && truthy uploaded && truthy sessionId then
        let item := newItem now s sessionId uploaded in
        setHistory (upsert item);;;
        try_catch (saveHistoryItem item)
          (λ e, emit (console_error "Failed to save session to IndexedDB"))
      else ret tt
  | _, _ => ret tt
  end.

(** *** processDecade, lines 228-249 *)

(** When the two moments of [processDecade(decade, index)] happen,
    counted from the click: the request leaves after the staggered
    delay of [2000 * index] ms and settles [latency] ms later. *)
Definition processDecade (uploaded decade : string) (index : nat)
    : list (Z * Step) :=
  let delay := if bool_decide (0 < index)%nat then 2000 * Z.of_nat index else 0 in
  let response := generateDecadeImage uploaded (prompt decade) in
  [ (delay, Start decade);
    (delay + Z.of_nat (latency response), Settle decade (outcome response)) ].

(** What each moment does. *)
Definition step (uploaded : string) (e : Step) : M World unit :=
  match e with
  | Start decade => emit (request uploaded (prompt decade))
  | Settle decade (Normal resultUrl) =>
      setGeneratedImages (settled decade (Normal resultUrl))
  | Settle decade (Throw err) =>
      setGeneratedImages (settled decade (Throw err));;;
      emit (console_error ("Failed to generate image for " ++ decade ++ ":"))
  end.

(** [selectedDecades.map(processDecade)] under [Promise.all]: the
    moments of all requests in the order of their times. *)
Definition generationPromises (uploaded : string) (decades : list string)
    : list (Z * Step) :=
  merge_sort earlier (mjoin (imap (λ index decade, processDecade uploaded decade index) decades)).

(** *** handleGenerateClick, lines 212-257 *)
Definition handleGenerateClick (now : Z) : M World unit :=
  let* s := gets react in
  match uploadedImage s with
  | Some uploaded =>
      if negb (truthy uploaded) || bool_decide (length (selectedDecades s) = 0%nat)
      then ret tt
      else
        setIsLoading true;;;
        setAppState generating;;;
        setCurrentSessionId (Some (pretty now));;;
        setGeneratedImages (λ _, initialImages (selectedDecades s));;;
        for_of (generationPromises uploaded (selectedDecades s))
               (λ e, step uploaded e.2);;;
        setIsLoading false;;;
        setAppState results_shown
  | None => ret tt
  end.

(** *** handleRegenerateDecade, lines 259-291 *)
Definition is_pending (image : option GeneratedImage) : bool :=
  match image with
  | Some g => bool_decide (status g = ImageStatus.pending)
  | None => false
  end.

Definition handleRegenerateDecade (decade : string) : M World unit :=
  let* s := gets react in
  match uploadedImage s with
  | Some uploaded =>
      if negb (truthy uploaded) then ret tt
      else if is_pending (generatedImages s !! decade) then ret tt
      else
        emit (console_log ("Regenerating image for " ++ decade ++ "..."));;;
        setGeneratedImages (λ prev, <[decade := pending_image]> prev);;;
        emit (request uploaded (prompt decade));;;
        match outcome (generateDecadeImage uploaded (prompt decade)) with
        | Normal resultUrl =>
            setGeneratedImages (settled decade (Normal resultUrl))
        | Throw err =>
            setGeneratedImages (settled decade (Throw err));;;
            emit (console_error ("Failed to regenerate image for " ++ decade ++ ":"))
        end
  | None => ret tt
  end.

(** *** handleReset, handleSelectHistoryItem, handleDeleteHistoryItem *)
Definition default_ratio : Q := Qmake 3 4.

Definition handleReset : M World unit :=
  setUploadedImage None;;;
  setImageAspectRatio default_ratio;;;
  setGeneratedImages (λ _, ∅);;;
  setAppState idle;;;
  setCurrentSessionId None.

Definition handleSelectHistoryItem (item : HistoryItem.t) : M World unit :=
  setUploadedImage (Some (HistoryItem.originalImage item));;;
  setImageAspectRatio
    (match HistoryItem.aspectRatio item with
     | Some r => if Qeq_bool r (Qmake 0 1) then default_ratio else r
     | None => default_ratio
     end);;;
  setSelectedDecades (HistoryItem.selectedDecades item);;;
  setGeneratedImages (λ _, HistoryItem.generatedImages item);;;
  setAppState (HistoryItem.appState item);;;
  setCurrentSessionId (Some (HistoryItem.id item));;;
  setIsHistoryOpen false.

Definition handleDeleteHistoryItem (id : string) : M World unit :=
  let* s := gets react in
  setHistory (List.filter (λ item, negb (String.eqb (HistoryItem.id item) id)));;;
  try_catch (deleteHistoryItem id)
    (λ e, emit (console_error "Failed to delete item from IndexedDB"));;;
  if bool_decide (currentSessionId s = Some id) then handleReset else ret tt.

(** *** handleDownloadAlbum, lines 333-363 *)
Definition handleDownloadAlbum : M World unit :=
  setIsDownloading true;;;
  try_finally
    (try_catch
       (let* s := gets react in
        let imageData := imageData (generatedImages s) in
        if bool_decide (size imageData < length (selectedDecades s))%nat then
          emit (alert "Please wait for all images to finish generating before downloading the album.")
        else
          let* albumDataUrl := await (createAlbumPage imageData) in
          emit (download albumDataUrl "past-forward-album.jpg"))
       (λ error,
          emit (console_error "Failed to create or download album:");;;
          emit (alert "Sorry, there was an error creating your album. Please try again.")))
    (setIsDownloading false).

End Handlers.
End App.

(** ** The words of the specification *)

Module RateLimitSpec.
Import RateLimitService.

(** A timestamp is strictly younger than [M] minutes at time [now]. *)
Definition younger_than (now M ts : Z) : Prop := now - ts < M * 60 * 1000.

#[global] Instance younger_than_dec now M ts : Decision (younger_than now M ts).
Proof. unfold younger_than. apply _. Defined.

(** The active entries of a log, in the order of the log. *)
Definition active (now M : Z) (history : list Z) : list Z :=
  filter (younger_than now M) history.

Definition active_count (now M : Z) (history : list Z) : Z :=
  Z.of_nat (length (active now M history)).


(** [m] is [num / den] rounded up. *)
Definition rounded_up (num den m : Z) : Prop :=
  den * (m - 1) < num ≤ den * m.

Section Words.
Context `{Platform}.

(** The storage holds the timestamp log [history]. *)
Definition stored_log (ls : Storage) (history : list Z) : Prop :=
  (getHistory ls).1 = Normal (JArray (JNumber <$> history)).

(** The environment sets a window of [M] minutes and a ceiling of [C]
    generations. *)
Definition configured (env : Env) (M C : Z) : Prop :=
  or_default (Number (VITE_LIMIT_MINUTES env)) 5 = M ∧
  or_default (Number (VITE_MAX_PHOTOS env)) 10 = C.


(** [getHistory] returns a list. *)
Definition is_list (v : JSValue) : Prop :=
  match v with
  | JArray _ => True
  | _ => False
  end.
End Words.
End RateLimitSpec.

Module AppSpec.
Import App.

(** The image a settled request leaves in the result map. *)
Definition image_of (result : Completion string) : GeneratedImage :=
  match result with
  | Normal resultUrl => done_image resultUrl
  | Throw err => error_image (errorMessage err)
  end.

(** What a moment of a request does to the result map. *)
Definition apply_step (images : gmap string GeneratedImage) (e : Z * Step)
    : gmap string GeneratedImage :=
  match e.2 with
  | Start _ => images
  | Settle decade result => settled decade result images
  end.

(** The hooks with another result map. *)
Definition with_images (images : gmap string GeneratedImage) (s : State) : State :=
  {| uploadedImage := uploadedImage s; imageAspectRatio := imageAspectRatio s;
     generatedImages := images; isLoading := isLoading s;
     isDownloading := isDownloading s; appState := appState s;
     selectedDecades := selectedDecades s; selectedImage := selectedImage s;
     history := history s; isHistoryOpen := isHistoryOpen s;
     currentSessionId := currentSessionId s |}.

(** The keyed store after a record is saved in it. *)
Definition saved (store : gmap string HistoryItem.t) (item : HistoryItem.t)
    : gmap string HistoryItem.t :=
  <[HistoryItem.id item := item]> store.


(** The decade has a result entry with status done and a url. *)
Definition has_completed (s : State) (decade : string) : Prop :=
  ∃ g u, generatedImages s !! decade = Some g ∧
         status g = ImageStatus.done ∧ url g = Some u ∧ truthy u = true.

(** The events of a download: one file, or none. *)
Definition files (events : list Event) : list Event :=
  List.filter (λ e, match e with download _ _ => true | _ => false end) events.
Definition alerts (events : list Event) : list Event :=
  List.filter (λ e, match e with alert _ => true | _ => false end) events.

(** The album download as the specification words it: no file and an
    alert when some selected decade lacks a completed result. *)
Definition album_refused
    (createAlbumPage : gmap string string → Completion string) (w : World) : Prop :=
  (∃ decade, decade ∈ selectedDecades (react w) ∧ ¬ has_completed (react w) decade) →
  let w' := (handleDownloadAlbum createAlbumPage w).2 in
  ∃ added, trace w' = (trace w ++ added)%list ∧
             files added = [] ∧ alerts added ≠ [].
End AppSpec.

(** ** The data of the examples *)

Module Examples.
Import RateLimitService App.

(** The settings and logs of the examples: a window of two minutes and a
    ceiling of three, a log in chronological order and one that is not. *)
Definition two_minutes_three : Env :=
  {| VITE_MAX_PHOTOS := Some "3"; VITE_LIMIT_MINUTES := Some "2" |}.
Definition defaults : Env :=
  {| VITE_MAX_PHOTOS := None; VITE_LIMIT_MINUTES := None |}.
Definition chronological : Storage := {[ STORAGE_KEY := "[10000,90000]" ]}.
Definition out_of_order : Storage := {[ STORAGE_KEY := "[90000,10000]" ]}.
Definition null_log : Storage := {[ STORAGE_KEY := "null" ]}.

(** The hooks of the examples: a photo is uploaded and two decades are
    selected. *)
Definition two_decades (images : gmap string GeneratedImage) : State :=
  {| uploadedImage := Some "data:image/png;base64,AAAA";
     imageAspectRatio := Qmake 3 4;
     generatedImages := images;
     isLoading := false; isDownloading := false;
     appState := image_uploaded;
     selectedDecades := ["1950s"; "1960s"];
     selectedImage := None; history := []; isHistoryOpen := false;
     currentSessionId := None |}.

Definition world (s : State) : World :=
  {| react := s; localStorage := ∅; db := ∅; trace := [] |}.

(** A service that fails for the 1960s and answers the 1950s late. *)
Definition service (image prompt : string) : Response :=
  if String.eqb prompt (App.prompt "1960s")
  then {| latency := 10; outcome := Throw (Error "quota exceeded") |}
  else {| latency := 5000; outcome := Normal "data:image/png;base64,BBBB" |}.


Definition completed_1950s : gmap string GeneratedImage :=
  {[ "1950s" := done_image "data:image/png;base64,BBBB" ]}.
Definition completed_both : gmap string GeneratedImage :=
  <[ "1960s" := done_image "data:image/png;base64,CCCC" ]> completed_1950s.

(** A compositor that succeeds. *)
Definition compositor (imageData : gmap string string) : Completion string :=
  Normal "data:image/jpeg;base64,ALBUM".

(** A legacy log of one session, as JSON text, and its reading. *)
Definition q : string := String "034"%char EmptyString.

Definition legacy_text : string :=
  "[{" ++ q ++ "id" ++ q ++ ":" ++ q ++ "1699999999999" ++ q ++ "," ++
  q ++ "timestamp" ++ q ++ ":1699999999999," ++
  q ++ "originalImage" ++ q ++ ":" ++ q ++ "data:image/png;base64,AAAA" ++ q ++ "," ++
  q ++ "aspectRatio" ++ q ++ ":0.75," ++
  q ++ "selectedDecades" ++ q ++ ":[" ++ q ++ "1960s" ++ q ++ "]," ++
  q ++ "generatedImages" ++ q ++ ":{" ++ q ++ "1960s" ++ q ++ ":{" ++
  q ++ "status" ++ q ++ ":" ++ q ++ "error" ++ q ++ "," ++
  q ++ "error" ++ q ++ ":" ++ q ++ "quota exceeded" ++ q ++ "}}," ++
  q ++ "appState" ++ q ++ ":" ++ q ++ "results-shown" ++ q ++ "}]".

Definition legacy_item : HistoryItem.t :=
  {| HistoryItem.id := "1699999999999";
     HistoryItem.timestamp := 1699999999999;
     HistoryItem.originalImage := "data:image/png;base64,AAAA";
     HistoryItem.aspectRatio := Some (Qmake 3 4);
     HistoryItem.selectedDecades := ["1960s"];
     HistoryItem.generatedImages := {[ "1960s" := error_image "quota exceeded" ]};
     HistoryItem.appState := results_shown |}.


Definition legacy_world : World :=
  {| react := two_decades ∅;
     localStorage := {[ "flashback_history" := legacy_text ]};
     db := ∅; trace := [] |}.

(** One decade is selected and the history lists the legacy session. *)
Definition one_decade : State :=
  {| uploadedImage := Some "data:image/png;base64,AAAA";
     imageAspectRatio := Qmake 3 4;
     generatedImages := ∅;
     isLoading := false; isDownloading := false;
     appState := image_uploaded;
     selectedDecades := ["1950s"];
     selectedImage := None; history := [legacy_item]; isHistoryOpen := true;
     currentSessionId := None |}.

(** The steps of [handleGenerateClick] for that decade, with a click on the
    legacy session between the request and its answer. *)
Definition interleaved : M World unit :=
  setIsLoading true;;;
  setAppState generating;;;
  setCurrentSessionId (Some "1700000000000");;;
  setGeneratedImages (λ _, initialImages ["1950s"]);;;
  step "data:image/png;base64,AAAA" (Start "1950s");;;
  handleSelectHistoryItem legacy_item;;;
  step "data:image/png;base64,AAAA"
       (Settle "1950s" (Normal "data:image/png;base64,BBBB"));;;
  setIsLoading false;;;
  setAppState results_shown.

(** The hooks after these steps: the opened session selects the 1960s
    only, which failed, and the result map also holds the completed 1950s
    of the other session. *)
Definition stale_entry : State :=
  {| uploadedImage := Some "data:image/png;base64,AAAA";
     imageAspectRatio := Qmake 3 4;
     generatedImages :=
       <[ "1950s" := done_image "data:image/png;base64,BBBB" ]>
         {[ "1960s" := error_image "quota exceeded" ]};
     isLoading := false; isDownloading := false;
     appState := results_shown;
     selectedDecades := ["1960s"];
     selectedImage := None; history := [legacy_item]; isHistoryOpen := false;
     currentSessionId := Some "1699999999999" |}.

Definition world_after_interleaving : World :=
  {| react := stale_entry; localStorage := ∅; db := ∅;
     trace := [request "data:image/png;base64,AAAA" (prompt "1950s")] |}.

(** Two saves of one session: while generating, and with the results. *)
Definition first_save : HistoryItem.t :=
  {| HistoryItem.id := "1700000000000";
     HistoryItem.timestamp := 1700000000001;
     HistoryItem.originalImage := "data:image/png;base64,AAAA";
     HistoryItem.aspectRatio := Some (Qmake 3 4);
     HistoryItem.selectedDecades := ["1950s"; "1960s"];
     HistoryItem.generatedImages := initialImages ["1950s"; "1960s"];
     HistoryItem.appState := generating |}.
Definition latest_save : HistoryItem.t :=
  {| HistoryItem.id := "1700000000000";
     HistoryItem.timestamp := 1700000009000;
     HistoryItem.originalImage := "data:image/png;base64,AAAA";
     HistoryItem.aspectRatio := Some (Qmake 3 4);
     HistoryItem.selectedDecades := ["1950s"; "1960s"];
     HistoryItem.generatedImages := completed_both;
     HistoryItem.appState := results_shown |}.
End Examples.

(** ** More of src/App.tsx: the upload, the single download, the decade
       buttons *)

Module AppMore.
Import App.

(** What the file picker hands over: the data URL the reader produces for
    the file ([reader.result], null when the read fails) and, when the
    browser can decode it, the width and height of the picture. *)
Record File : Type := {
  result : option string;
  decoded : option (positive * positive);
}.

(** handleImageUpload, lines 189-210, with its two callbacks:
    [reader.onloadend] and, later, [img.onload].  The ratio of the two
    integers is kept as the rational it is. *)
Definition handleImageUpload (files : list File) : M World unit :=
  match files with
  | file :: _ =>
      setUploadedImage (result file);;;
      setAppState image_uploaded;;;
      setGeneratedImages (λ _, ∅);;;
      setCurrentSessionId None;;;
      match result file, decoded file with
      | Some base64, Some (width, height) =>
          setImageAspectRatio (Qmake (Zpos width) height)
      | _, _ => ret tt
      end
  | [] => ret tt
  end.

(** handleDownloadIndividualImage, lines 321-331. *)
Definition handleDownloadIndividualImage (decade : string) : M World unit :=
  let* s := gets react in
  match generatedImages s !! decade with
  | Some image =>
      match completed image with
      | Some href => emit (download href ("past-forward-" ++ decade ++ ".jpg"))
      | None => ret tt
      end
  | None => ret tt
  end.

(** The decade buttons, lines 447-461. *)
Definition isSelected (s : State) (decade : string) : bool :=
  bool_decide (decade ∈ selectedDecades s).

Definition isDisabled (s : State) (decade : string) : bool :=
  negb (isSelected s decade) && bool_decide (6 ≤ length (selectedDecades s))%nat.

(** A click on the button of [decade]; a disabled button takes no click. *)
Definition clickDecade (decade : string) : M World unit :=
  let* s := gets react in
  if isDisabled s decade then ret tt
  else if isSelected s decade then
    setSelectedDecades (List.filter (λ d, negb (String.eqb d decade)) (selectedDecades s))
  else
    setSelectedDecades (selectedDecades s ++ [decade]).

(** The selection [App] starts with, line 123. *)
Definition initialDecades : list string :=
  ["1950s"; "1960s"; "1970s"; "1980s"; "1990s"; "2000s"].

End AppMore.

(** ** The image modal with its carousel (src/unnamed/part_001) *)

Module ImageModal.

(** The two hooks of the modal, lines 19-20. *)
Record State : Type := {
  scale : Q;
  currentIndex : Z;
}.

(** [useState(1)] and [useState(initialIndex)]. *)
Definition initial (initialIndex : Z) : State :=
  {| scale := 1%Q; currentIndex := initialIndex |}.

(** Lines 22-30. *)
Definition handleZoomIn (s : State) : State :=
  {| scale := Qmin (scale s + Qmake 1 4) (Qmake 3 1); currentIndex := currentIndex s |}.

Definition handleZoomOut (s : State) : State :=
  {| scale := Qmax (scale s - Qmake 1 4) (Qmake 1 2); currentIndex := currentIndex s |}.

(** Lines 32-42; [n] is [items.length]. *)
Definition handlePrev (n : Z) (s : State) : State :=
  {| scale := 1%Q;
     currentIndex := if bool_decide (0 < currentIndex s)
                     then currentIndex s - 1 else n - 1 |}.

Definition handleNext (n : Z) (s : State) : State :=
  {| scale := 1%Q;
     currentIndex := if bool_decide (currentIndex s < n - 1)
                     then currentIndex s + 1 else 0 |}.

(** The clicks on the zoom buttons. *)
Inductive Zoom : Type := zoom_in | zoom_out.

Definition zoom (s : State) (click : Zoom) : State :=
  match click with
  | zoom_in => handleZoomIn s
  | zoom_out => handleZoomOut s
  end.

End ImageModal.

(** ** More words and data for the properties *)

Module MoreSpec.
Import App AppMore.

(** The requests among the events. *)
Definition is_request (e : Event) : Prop :=
  match e with
  | request _ _ => True
  | _ => False
  end.

#[global] Instance is_request_dec e : Decision (is_request e).
Proof. destruct e; simpl; apply _. Defined.

Definition requests (events : list Event) : list Event :=
  filter is_request events.

(** The files among the events. *)
Definition is_file (e : Event) : Prop :=
  match e with
  | download _ _ => True
  | _ => False
  end.

#[global] Instance is_file_dec e : Decision (is_file e).
Proof. destruct e; simpl; apply _. Defined.

(** The events of one moment of a request. *)
Definition step_events (uploaded : string) (e : Z * Step) : list Event :=
  match e.2 with
  | Start decade => [request uploaded (prompt decade)]
  | Settle decade (Normal _) => []
  | Settle decade (Throw _) =>
      [console_error ("Failed to generate image for " ++ decade ++ ":")]
  end.

(** The identifiers of a history list. *)
Definition ids (items : list HistoryItem.t) : list string :=
  HistoryItem.id <$> items.

(** The hooks that hold a session: everything but the history list and
    the flags of the sidebar and of the download. *)
Definition same_session (a b : State) : Prop :=
  uploadedImage a = uploadedImage b ∧
  generatedImages a = generatedImages b ∧
  selectedDecades a = selectedDecades b ∧
  appState a = appState b ∧
  currentSessionId a = currentSessionId b.

(** The hooks of [two_decades] with another selection, and a result map
    left by an earlier session. *)
Definition two_decades_of (decades : list string)
    (images : gmap string GeneratedImage) : State :=
  {| uploadedImage := Some "data:image/png;base64,AAAA";
     imageAspectRatio := Qmake 3 4;
     generatedImages := images;
     isLoading := false; isDownloading := false;
     appState := image_uploaded;
     selectedDecades := decades;
     selectedImage := None; history := []; isHistoryOpen := false;
     currentSessionId := None |}.


(** A photo of 3 by 4 and a pick that cannot be read. *)
Definition photo : File :=
  {| result := Some "data:image/png;base64,DDDD"; decoded := Some (3, 4)%positive |}.
Definition unreadable : File :=
  {| result := None; decoded := None |}.

(** The hooks while the results of a session are shown. *)
Definition shown : State :=
  {| uploadedImage := Some "data:image/png;base64,AAAA";
     imageAspectRatio := Qmake 3 4;
     generatedImages :=
       <[ "1960s" := error_image "quota exceeded" ]>
         {[ "1950s" := done_image "data:image/png;base64,BBBB" ]};
     isLoading := false; isDownloading := false;
     appState := results_shown;
     selectedDecades := ["1950s"; "1960s"];
     selectedImage := None;
     history := [Examples.latest_save; Examples.legacy_item];
     isHistoryOpen := false;
     currentSessionId := Some "1700000000000" |}.

Definition shown_world : World :=
  {| react := shown; localStorage := ∅;
     db := <[ "1700000000000" := Examples.latest_save ]>
             {[ "1699999999999" := Examples.legacy_item ]};
     trace := [] |}.

(** A compositor that fails. *)
Definition failing (imageData : gmap string string) : Completion string :=
  Throw (Error "canvas").
End MoreSpec.

(** * Properties *)

(** ** The host of the examples reads and writes the rate log *)

Example parse_log : Host.parse "[90000,10000]" = Some (JArray [JNumber 90000; JNumber 10000]).
Proof. vm_compute. reflexivity. Qed.
Example parse_null : Host.parse "null" = Some JNull.
Proof. reflexivity. Qed.
Example parse_garbage : Host.parse "[1,,2" = None.
Proof. reflexivity. Qed.
Example stringify_log : Host.stringify (JArray [JNumber 90000; JNumber 10000]) = "[90000,10000]".
Proof. vm_compute. reflexivity. Qed.

(** ** The rate gauge *)

Module RateLimitFacts.
Import RateLimitService RateLimitSpec.

Section Facts.
Context `{Platform}.

Lemma getHistory_returns ls : ∃ v, getHistory ls = (Normal v, ls).
Proof.
  unfold getHistory, try_catch, bind, getItem, gets, parse, ret, throw.
  destruct (ls !! STORAGE_KEY) as [s|]; [|eauto].
  destruct (truthy s); [|eauto].
  destruct (JSON_parse s); eauto.
Qed.

Lemma getHistory_missing ls :
  ls !! STORAGE_KEY = None → getHistory ls = (Normal (JArray []), ls).
Proof.
  intros Hk. unfold getHistory, try_catch, bind, getItem, gets.
  by rewrite Hk.
Qed.

Lemma getHistory_empty ls :
  ls !! STORAGE_KEY = Some EmptyString → getHistory ls = (Normal (JArray []), ls).
Proof.
  intros Hk. unfold getHistory, try_catch, bind, getItem, gets.
  by rewrite Hk.
Qed.

Lemma getHistory_malformed ls s :
  ls !! STORAGE_KEY = Some s → JSON_parse s = None →
  getHistory ls = (Normal (JArray []), ls).
Proof.
  intros Hk Hs. unfold getHistory, try_catch, bind, getItem, gets, parse.
  rewrite Hk. destruct (truthy s); [|done]. by rewrite Hs.
Qed.


Lemma stored_log_getHistory ls history :
  stored_log ls history →
  getHistory ls = (Normal (JArray (JNumber <$> history)), ls).
Proof.
  unfold stored_log. destruct (getHistory_returns ls) as [v ->].
  simpl. by intros [= ->].
Qed.

Lemma within_number now w t :
  within now w (JNumber t) = bool_decide (now - t < w).
Proof. reflexivity. Qed.

Lemma filter_within now M history :
  List.filter (within now (M * 60 * 1000)) (JNumber <$> history)
  = JNumber <$> active now M history.
Proof.
  unfold active. induction history as [|t l IH]; [done|].
  rewrite fmap_cons. simpl List.filter. rewrite within_number, IH.
  rewrite filter_cons.
  destruct (decide (younger_than now M t)) as [Hd|Hd]; unfold younger_than in Hd.
  - by rewrite bool_decide_eq_true_2.
  - by rewrite bool_decide_eq_false_2.
Qed.

(** [checkLimit] on a stored log, field by field. *)
Lemma checkLimit_stored env now R ls history M C :
  stored_log ls history → configured env M C →
  checkLimit env now R ls =
    (Normal
       {| allowed := bool_decide (active_count now M history + R ≤ C);
          remaining := Z.max 0 (C - active_count now M history);
          resetInMinutes :=
            match active now M history with
            | o :: _ =>
                if bool_decide (active_count now M history + R ≤ C)
                then Num 0
                else Num (- (- (M * 60 * 1000 - (now - o)) / (60 * 1000)))
            | [] => Num 0
            end;
          resetAt :=
            match active now M history with
            | o :: _ =>
                if bool_decide (active_count now M history + R ≤ C)
                then JNumber 0
                else JNumber (o + M * 60 * 1000)
            | [] => JNumber 0
            end;
          maxPhotos := C;
          limitMinutes := M |}, ls).
Proof.
  intros Hlog [HM HC]. unfold checkLimit, bind.
  rewrite (stored_log_getHistory _ _ Hlog), HM, HC.
  unfold Array_filter, ret. rewrite filter_within.
  unfold active_count. rewrite length_fmap.
  destruct (active now M history) as [|o rest]; [done|].
  rewrite fmap_cons.
  by destruct (bool_decide _).
Qed.

(** A setting that reads as a non-zero number is the configured value;
    an unset, unreadable or zero setting falls back to the default. *)
Lemma configured_values (env : Env) (sM sC : string) (M C : Z) :
  VITE_LIMIT_MINUTES env = Some sM → StringToNumber sM = Num M → M ≠ 0 →
  VITE_MAX_PHOTOS env = Some sC → StringToNumber sC = Num C → C ≠ 0 →
  configured env M C.
Proof.
  intros HeM HM ? HeC HC ?. unfold configured, Number.
  rewrite HeM, HeC, HM, HC. by destruct M, C.
Qed.

Lemma configured_defaults :
  configured {| VITE_MAX_PHOTOS := None; VITE_LIMIT_MINUTES := None |} 5 10.
Proof. done. Qed.

Lemma rounded_up_ceiling num den :
  0 < den → rounded_up num den (- (- num / den)).
Proof.
  intros Hden. unfold rounded_up.
  pose proof (Z.div_mod (- num) den ltac:(lia)).
  pose proof (Z.mod_pos_bound (- num) den Hden).
  nia.
Qed.


End Facts.
End RateLimitFacts.

Module RateLimitStore.
Import RateLimitService RateLimitSpec RateLimitFacts.

Section Store.
Context `{Platform}.

(** The loop of [recordGeneration]: no iteration leaves the value as it
    is, and the first [push] on a value that is no array throws. *)
Lemma push_loop_array n now items (ls : Storage) :
  push_loop n now (JArray items) ls
  = (Normal (JArray (items ++ replicate n (JNumber now))), ls).
Proof.
  revert items. induction n as [|n IH]; intros items; simpl.
  - by rewrite app_nil_r.
  - unfold bind, Array_push, ret. rewrite IH.
    by rewrite <- app_assoc.
Qed.

Lemma push_loop_store n now v (ls : Storage) :
  (push_loop n now v ls).2 = ls.
Proof.
  destruct v; try (by destruct n).
  by rewrite push_loop_array.
Qed.

Lemma checkLimit_store env now R (ls : Storage) :
  (checkLimit env now R ls).2 = ls.
Proof.
  unfold checkLimit, bind.
  destruct (getHistory_returns ls) as [v ->].
  by destruct v.
Qed.

Lemma getHistory_store (ls : Storage) : (getHistory ls).2 = ls.
Proof. by destruct (getHistory_returns ls) as [v ->]. Qed.

(** What [recordGeneration] writes when the stored value is an array. *)
Lemma recordGeneration_array env now count (ls : Storage) items :
  (getHistory ls).1 = Normal (JArray items) →
  recordGeneration env now count ls
  = (Normal tt,
     <[STORAGE_KEY :=
         JSON_stringify
           (JArray (List.filter
                      (within now (or_default (Number (VITE_LIMIT_MINUTES env)) 5 * 60 * 1000))
                      (items ++ replicate (Z.to_nat count) (JNumber now))))]> ls).
Proof.
  intros Hv. unfold recordGeneration, bind.
  destruct (getHistory_returns ls) as [v Hg]. rewrite Hg in Hv |- *.
  simpl in Hv. injection Hv as ->.
  by rewrite push_loop_array.
Qed.

Lemma recordGeneration_other_keys env now count (ls : Storage) k :
  k ≠ STORAGE_KEY →
  (recordGeneration env now count ls).2 !! k = ls !! k.
Proof.
  intros Hk. unfold recordGeneration, bind.
  destruct (getHistory_returns ls) as [v ->].
  destruct (push_loop (Z.to_nat count) now v ls) as [[h|e] ls'] eqn:Hpush;
    pose proof (push_loop_store (Z.to_nat count) now v ls) as Hls;
    rewrite Hpush in Hls; simpl in Hls; subst ls'; [|done].
  destruct h; try done.
  unfold Array_filter, ret, setItem, modify. simpl.
  by rewrite lookup_insert_ne.
Qed.

(** [recordGeneration] keeps a chronological log chronological, as long as
    the clock has not gone back behind an entry of the log. *)
Lemma StronglySorted_replicate n (now : Z) : StronglySorted Z.le (replicate n now).
Proof.
  induction n as [|n IH]; simpl; constructor; [done|].
  apply Forall_forall. intros t Ht. apply elem_of_replicate in Ht as [-> _]. lia.
Qed.

Lemma StronglySorted_active now M history :
  StronglySorted Z.le history → StronglySorted Z.le (active now M history).
Proof.
  unfold active. induction 1 as [|t l Hl IH Ht]; [constructor|].
  rewrite filter_cons. destruct (decide (younger_than now M t)); [|done].
  constructor; [done|].
  apply Forall_forall. intros t' [_ Ht']%list_elem_of_filter.
  rewrite Forall_forall in Ht. by apply Ht.
Qed.

Lemma recordGeneration_chronological env now count (ls : Storage) history M C :
  stored_log ls history →
  configured env M C →
  Sorted Z.le history →
  (∀ t, t ∈ history → t ≤ now) →
  ∃ history',
    recordGeneration env now count ls
    = (Normal tt,
       <[STORAGE_KEY := JSON_stringify (JArray (JNumber <$> history'))]> ls) ∧
    history' = active now M (history ++ replicate (Z.to_nat count) now) ∧
    Sorted Z.le history'.
Proof.
  intros Hlog [HM _] Hsorted Hnow.
  eexists. split; [|split; [reflexivity|]].
  - rewrite (recordGeneration_array env now count ls (JNumber <$> history) Hlog).
    rewrite HM. rewrite <- (fmap_replicate JNumber), <- fmap_app.
    by rewrite filter_within.
  - apply StronglySorted_Sorted, StronglySorted_active, StronglySorted_app.
    split; [|split].
    + intros t1 t2 Ht1 Ht2. apply elem_of_replicate in Ht2 as [-> _]. by apply Hnow.
    + apply Sorted_StronglySorted; [intros ???; lia|done].
    + apply StronglySorted_replicate.
Qed.
End Store.
End RateLimitStore.

Module RateLimitClaims.
Import RateLimitService RateLimitSpec RateLimitFacts Examples.






(** C9.  [checkLimit] is a read-only query: whatever the storage holds
    and whatever is requested, the storage after the call is the storage
    before it, and so it is after [getHistory]; [recordGeneration] is the
    operation that writes the rate log, and it writes that key only. *)
Theorem checkLimit_read_only `{Platform} env now R count (ls : Storage) :
  (checkLimit env now R ls).2 = ls ∧
  (getHistory ls).2 = ls ∧
  (∀ k, k ≠ STORAGE_KEY → (recordGeneration env now count ls).2 !! k = ls !! k) ∧
  (∀ items, (getHistory ls).1 = Normal (JArray items) →
     ∃ written, (recordGeneration env now count ls).2 !! STORAGE_KEY
                = Some (JSON_stringify (JArray written))).
Proof.
  split; [apply RateLimitStore.checkLimit_store|].
  split; [apply RateLimitStore.getHistory_store|].
  split; [intros k; apply RateLimitStore.recordGeneration_other_keys|].
  intros items Hitems. eexists.
  rewrite (RateLimitStore.recordGeneration_array _ _ _ _ _ Hitems). simpl.
  apply lookup_insert_eq.
Qed.

Lemma checkLimit_read_only_witness :
  (checkLimit (H := Host.host) two_minutes_three 100000 2 chronological).2 = chronological ∧
  (getHistory (H := Host.host) chronological).2 = chronological ∧
  (recordGeneration (H := Host.host) defaults 400000 2 chronological).2 !! "flashback_history"
  = chronological !! "flashback_history" ∧
  ∃ written,
    (recordGeneration (H := Host.host) defaults 400000 2 chronological).2 !! STORAGE_KEY
    = Some (Host.stringify (JArray written)).
Proof.
  destruct (checkLimit_read_only (H := Host.host) two_minutes_three 100000 2 2 chronological)
    as (Hcheck & Hget & _ & _).
  destruct (checkLimit_read_only (H := Host.host) defaults 400000 2 2 chronological)
    as (_ & _ & Hother & Hwrites).
  split; [exact Hcheck|]. split; [exact Hget|].
  split; [apply Hother; discriminate|].
  apply (Hwrites [JNumber 10000; JNumber 90000]).
  vm_compute. reflexivity.
Defined.

(** C10, evaluated where the code fails it.  The stored text [null] is
    valid JSON: [getHistory] returns the value null, which is no list,
    and [checkLimit] then throws a TypeError on [history.filter]. *)
Theorem getHistory_null :
  getHistory (H := Host.host) null_log = (Normal JNull, null_log) ∧
  ¬ is_list JNull ∧
  (checkLimit (H := Host.host) defaults 100000 1 null_log).1 = Throw TypeError.
Proof.
  split; [vm_compute; reflexivity|].
  split; [intros []|vm_compute; reflexivity].
Qed.


(** The runs of the examples, evaluated. *)
Example checkLimit_refused :
  (checkLimit (H := Host.host) two_minutes_three 100000 2 chronological).1
  = Normal {| allowed := false; remaining := 1; resetInMinutes := Num 1;
              resetAt := JNumber 130000; maxPhotos := 3; limitMinutes := 2 |}.
Proof. vm_compute. reflexivity. Qed.

Example checkLimit_out_of_order :
  (checkLimit (H := Host.host) defaults 100000 10 out_of_order).1
  = Normal {| allowed := false; remaining := 8; resetInMinutes := Num 5;
              resetAt := JNumber 390000; maxPhotos := 10; limitMinutes := 5 |}.
Proof. vm_compute. reflexivity. Qed.

Example recordGeneration_expires :
  (recordGeneration (H := Host.host) defaults 400000 2 chronological).2
  = {[ STORAGE_KEY := "[400000,400000]" ]}.
Proof. vm_compute. reflexivity. Qed.

Example getHistory_unparsable :
  (getHistory (H := Host.host) {[ STORAGE_KEY := "[1,,2" ]}).1 = Normal (JArray []).
Proof. vm_compute. reflexivity. Qed.
End RateLimitClaims.

(** ** The handlers of App *)

Module AppFacts.
Import App AppSpec.

Lemma with_images_same s : with_images (generatedImages s) s = s.
Proof. by destruct s. Qed.

Lemma settled_image decade result prev :
  settled decade result prev = <[decade := image_of result]> prev.
Proof. by destruct result. Qed.


Lemma settled_lookup decade result prev :
  settled decade result prev !! decade = Some (image_of result).
Proof. rewrite settled_image. apply lookup_insert_eq. Qed.

Lemma settled_lookup_ne decade result prev other :
  other ≠ decade → settled decade result prev !! other = prev !! other.
Proof. intros Hne. rewrite settled_image. by apply lookup_insert_ne. Qed.

(** One moment changes the result map by [apply_step], adds events, and
    leaves every other hook and both stores alone. *)
Lemma step_run uploaded (e : Z * Step) w :
  ∃ w', step uploaded e.2 w = (Normal tt, w') ∧
        react w' = with_images (apply_step (generatedImages (react w)) e) (react w) ∧
        localStorage w' = localStorage w ∧ db w' = db w.
Proof.
  unfold apply_step. destruct e as [t [decade|decade [resultUrl|err]]]; simpl.
  - eexists. split; [reflexivity|]. simpl. by rewrite with_images_same.
  - eexists. split; [reflexivity|]. done.
  - eexists. split; [reflexivity|]. done.
Qed.

Lemma for_of_steps uploaded (events : list (Z * Step)) w :
  ∃ w', for_of events (λ e, step uploaded e.2) w = (Normal tt, w') ∧
        react w' = with_images (foldl apply_step (generatedImages (react w)) events)
                               (react w) ∧
        localStorage w' = localStorage w ∧ db w' = db w.
Proof.
  revert w. induction events as [|e events IH]; intros w; simpl.
  - eexists. split; [reflexivity|]. by rewrite with_images_same.
  - destruct (step_run uploaded e w) as (w1 & Hstep & Hreact & Hls & Hdb).
    destruct (IH w1) as (w2 & Hrest & Hreact2 & Hls2 & Hdb2).
    exists w2. unfold bind. rewrite Hstep, Hrest.
    split; [done|]. rewrite Hreact2, Hls2, Hdb2, Hreact. done.
Qed.

(** After a run of moments the entry of a decade is the image of its
    last settled request; here every request of the decade settles with
    an image [g]. *)
Lemma foldl_settled (events : list (Z * Step)) images decade g :
  (∀ t result, (t, Settle decade result) ∈ events → image_of result = g) →
  (∃ t result, (t, Settle decade result) ∈ events) →
  foldl apply_step images events !! decade = Some g.
Proof.
  induction events as [|e events IH] using rev_ind; intros Hall (t & result & Hin).
  { by apply elem_of_nil in Hin. }
  rewrite foldl_snoc. destruct e as [t' [d'|d' r']]; unfold apply_step at 1; simpl.
  - apply IH.
    + intros ???. eapply Hall. apply elem_of_app. by left.
    + apply elem_of_app in Hin as [Hin|Hin%list_elem_of_singleton]; [eauto|done].
  - destruct (decide (d' = decade)) as [->|Hne].
    + rewrite settled_lookup. f_equal. eapply Hall.
      apply elem_of_app. right. by apply list_elem_of_singleton.
    + rewrite settled_lookup_ne by done. apply IH.
      * intros ???. eapply Hall. apply elem_of_app. by left.
      * apply elem_of_app in Hin as [Hin|Hin%list_elem_of_singleton]; [eauto|].
        congruence.
Qed.

(** A decade without a settled request keeps its entry. *)
Lemma foldl_untouched (events : list (Z * Step)) images decade :
  (∀ t result, (t, Settle decade result) ∉ events) →
  foldl apply_step images events !! decade = images !! decade.
Proof.
  induction events as [|e events IH] using rev_ind; intros Hnone; [done|].
  rewrite foldl_snoc. destruct e as [t' [d'|d' r']]; unfold apply_step at 1; simpl.
  - apply IH. intros ?? Hin. eapply Hnone. apply elem_of_app. by left.
  - rewrite settled_lookup_ne.
    + apply IH. intros ?? Hin. eapply Hnone. apply elem_of_app. by left.
    + intros ->. eapply Hnone. apply elem_of_app. right.
      by apply list_elem_of_singleton.
Qed.

Section Requests.
Variable generateDecadeImage : string → string → Response.

Lemma generationPromises_settle uploaded decades t decade result :
  (t, Settle decade result) ∈ generationPromises generateDecadeImage uploaded decades →
  decade ∈ decades ∧
  result = outcome (generateDecadeImage uploaded (prompt decade)).
Proof.
  unfold generationPromises. rewrite merge_sort_Permutation.
  intros (moments & Hmoments & Hin)%list_elem_of_join.
  apply elem_of_lookup_imap in Hin as (index & d & -> & Hd).
  unfold processDecade in Hmoments.
  apply elem_of_cons in Hmoments as [[=]|Hmoments].
  apply list_elem_of_singleton in Hmoments as [= _ -> ->].
  split; [|done]. by eapply list_elem_of_lookup_2.
Qed.

Lemma generationPromises_settles uploaded decades decade :
  decade ∈ decades →
  ∃ t, (t, Settle decade (outcome (generateDecadeImage uploaded (prompt decade))))
       ∈ generationPromises generateDecadeImage uploaded decades.
Proof.
  intros (index & Hd)%list_elem_of_lookup_1.
  eexists. unfold generationPromises. rewrite merge_sort_Permutation.
  apply list_elem_of_join. eexists. split.
  - unfold processDecade. right. left.
  - by apply (elem_of_lookup_imap_2 (λ index decade,
                processDecade generateDecadeImage uploaded decade index) _ _ index).
Qed.

(** When every request has settled, the entry of each selected decade
    is the image of the answer to its own request. *)
Lemma generation_images uploaded decades images decade :
  decade ∈ decades →
  foldl apply_step images (generationPromises generateDecadeImage uploaded decades)
    !! decade
  = Some (image_of (outcome (generateDecadeImage uploaded (prompt decade)))).
Proof.
  intros Hd. apply foldl_settled.
  - intros t result Hin.
    by apply generationPromises_settle in Hin as [_ ->].
  - destruct (generationPromises_settles uploaded decades decade Hd) as [t Ht].
    eauto.
Qed.

Lemma initialImages_lookup decades k :
  initialImages decades !! k
  = if decide (k ∈ decades) then Some pending_image else None.
Proof.
  unfold initialImages.
  induction decades as [|decade decades IH] using rev_ind.
  { destruct (decide (k ∈ [])) as [Hin|_]; [by apply elem_of_nil in Hin|].
    apply lookup_empty. }
  rewrite foldl_snoc.
  destruct (decide (k ∈ (decades ++ [decade])%list)) as [Hin|Hout].
  - destruct (decide (decade = k)) as [->|Hne]; [apply lookup_insert_eq|].
    rewrite lookup_insert_ne, IH by done.
    apply elem_of_app in Hin as [Hin|Hin%list_elem_of_singleton]; [|congruence].
    by destruct (decide (k ∈ decades)).
  - rewrite lookup_insert_ne, IH.
    + destruct (decide (k ∈ decades)) as [Hin|_]; [|done].
      exfalso. apply Hout, elem_of_app. by left.
    + intros ->. apply Hout, elem_of_app. right. by left.
Qed.

(** A decade that is not selected gets no request and no entry. *)
Lemma generation_other uploaded decades images k :
  k ∉ decades →
  foldl apply_step images (generationPromises generateDecadeImage uploaded decades) !! k
  = images !! k.
Proof.
  intros Hk. apply foldl_untouched. intros t result Hin.
  by apply generationPromises_settle in Hin as [? _].
Qed.

(** The whole of [handleGenerateClick] when it has a photo and decades. *)
Lemma handleGenerateClick_runs now w uploaded :
  uploadedImage (react w) = Some uploaded →
  truthy uploaded = true →
  selectedDecades (react w) ≠ [] →
  ∃ w', handleGenerateClick generateDecadeImage now w = (Normal tt, w') ∧
        appState (react w') = results_shown ∧
        isLoading (react w') = false ∧
        currentSessionId (react w') = Some (pretty now) ∧
        selectedDecades (react w') = selectedDecades (react w) ∧
        uploadedImage (react w') = uploadedImage (react w) ∧
        generatedImages (react w')
        = foldl apply_step (initialImages (selectedDecades (react w)))
            (generationPromises generateDecadeImage uploaded (selectedDecades (react w))) ∧
        localStorage w' = localStorage w ∧ db w' = db w.
Proof.
  intros Himage Htruthy Hsome.
  unfold handleGenerateClick. unfold bind at 1. unfold gets at 1.
  rewrite Himage, Htruthy. simpl negb. simpl orb.
  rewrite bool_decide_eq_false_2 by (by destruct (selectedDecades (react w))).
  unfold bind, setIsLoading, setAppState, setCurrentSessionId, setGeneratedImages,
    modify. simpl.
  match goal with
  | |- context [for_of ?events ?body ?w0] =>
      destruct (for_of_steps uploaded events w0) as (w1 & Hrun & Hreact & Hls & Hdb)
  end.
  rewrite Hrun. eexists. split; [reflexivity|].
  simpl. rewrite Hreact, Hls, Hdb. simpl. by rewrite Himage.
Qed.

(** Without a photo, or without a selected decade, the click does nothing. *)
Lemma handleGenerateClick_idle now w :
  present (uploadedImage (react w)) = false ∨ selectedDecades (react w) = [] →
  handleGenerateClick generateDecadeImage now w = (Normal tt, w).
Proof.
  intros Hguard. unfold handleGenerateClick, bind, gets, present in *.
  destruct (uploadedImage (react w)) as [uploaded|]; [|done].
  destruct Hguard as [->| ->]; [done|].
  simpl. by rewrite orb_true_r.
Qed.

(** After the click the result map has the selected decades as keys, and
    the entry of each is the image of the answer to its own request. *)
Lemma handleGenerateClick_entries now w uploaded :
  uploadedImage (react w) = Some uploaded →
  truthy uploaded = true →
  selectedDecades (react w) ≠ [] →
  ∀ k, generatedImages (react (handleGenerateClick generateDecadeImage now w).2) !! k
       = if decide (k ∈ selectedDecades (react w))
         then Some (image_of (outcome (generateDecadeImage uploaded (prompt k))))
         else None.
Proof.
  intros Himage Htruthy Hsome k.
  destruct (handleGenerateClick_runs now w uploaded Himage Htruthy Hsome)
    as (w' & Hrun & _ & _ & _ & _ & _ & Himages & _).
  rewrite Hrun. simpl. rewrite Himages. destruct (decide (k ∈ selectedDecades (react w))) as [Hin|Hout].
  - by apply generation_images.
  - rewrite generation_other, initialImages_lookup by done.
    by destruct (decide (k ∈ selectedDecades (react w))).
Qed.
End Requests.

(** The answer to one decade does not reach the entry of another: two
    services that agree on a decade leave it the same entry, whatever they
    answer to the other decades. *)
Lemma handleGenerateClick_isolated service1 service2 now w uploaded decade :
  uploadedImage (react w) = Some uploaded →
  truthy uploaded = true →
  decade ∈ selectedDecades (react w) →
  outcome (service1 uploaded (prompt decade)) = outcome (service2 uploaded (prompt decade)) →
  generatedImages (react (handleGenerateClick service1 now w).2) !! decade
  = generatedImages (react (handleGenerateClick service2 now w).2) !! decade.
Proof.
  intros Himage Htruthy Hdecade Hsame.
  assert (selectedDecades (react w) ≠ []) as Hsome.
  { intros Hnil. rewrite Hnil in Hdecade. by apply elem_of_nil in Hdecade. }
  rewrite !(handleGenerateClick_entries _ now w uploaded) by done.
  by rewrite Hsame.
Qed.

(** The auto-save updater keeps one entry with the identifier of the
    record it saves: that record, at the head. *)
Lemma upsert_head newItem prev :
  ∃ rest, upsert newItem prev = newItem :: rest ∧
          Forall (λ item, HistoryItem.id item ≠ HistoryItem.id newItem) rest.
Proof.
  unfold upsert. simpl. eexists. split; [reflexivity|].
  apply Forall_take. apply Forall_forall. intros item Hitem.
  apply list_elem_of_In, filter_In in Hitem as [_ Hitem].
  apply negb_true_iff, String.eqb_neq in Hitem. done.
Qed.

Lemma upsert_once newItem prev :
  filter (λ item, HistoryItem.id item = HistoryItem.id newItem) (upsert newItem prev)
  = [newItem].
Proof.
  destruct (upsert_head newItem prev) as (rest & -> & Hrest).
  rewrite filter_cons_True by done. f_equal.
  induction Hrest as [|item rest Hitem _ IH]; [done|].
  by rewrite filter_cons_False.
Qed.

Lemma upsert_length newItem prev : (length (upsert newItem prev) ≤ 20)%nat.
Proof. unfold upsert. rewrite length_take. lia. Qed.

(** *** The album download *)

Lemma completed_Some g u :
  completed g = Some u ↔
  status g = ImageStatus.done ∧ url g = Some u ∧ truthy u = true.
Proof.
  unfold completed.
  destruct (status g), (url g) as [u'|];
    try (split; [discriminate | intros (? & ? & ?); discriminate]).
  destruct (truthy u') eqn:Hu; split.
  - by intros [= ->].
  - by intros (_ & [= ->] & _).
  - discriminate.
  - intros (_ & [= ->] & ?). congruence.
Qed.

Lemma has_completed_imageData s decade :
  has_completed s decade ↔ is_Some (imageData (generatedImages s) !! decade).
Proof.
  unfold has_completed, imageData, is_Some.
  setoid_rewrite lookup_omap_Some. setoid_rewrite completed_Some.
  split.
  - intros (g & u & Hg & Hdone & Hurl & Hu). exists u, g. done.
  - intros (u & g & (Hdone & Hurl & Hu) & Hg). exists g, u. done.
Qed.

(** Counting keys against a list of names. *)
Lemma size_lacking (m : gmap string string) (names : list string) name :
  (∀ k, is_Some (m !! k) → k ∈ names) →
  name ∈ names → m !! name = None →
  (size m < length names)%nat.
Proof.
  intros Hsub Hname Hnone.
  rewrite <- (size_dom (D := gset string)).
  change (size (dom m)) with (length (elements (dom m))).
  assert (Hle : name :: elements (dom m) ⊆+ names).
  { apply NoDup_submseteq.
    - constructor; [|apply NoDup_elements].
      rewrite elem_of_elements, elem_of_dom, Hnone. by intros [? ?].
    - intros x [->|Hx]%elem_of_cons; [done|].
      apply Hsub. by apply elem_of_dom, elem_of_elements. }
  apply submseteq_length in Hle. simpl in Hle. lia.
Qed.

Lemma size_covering (m : gmap string string) (names : list string) :
  NoDup names → (∀ k, k ∈ names → is_Some (m !! k)) →
  (length names ≤ size m)%nat.
Proof.
  intros Hnodup Hall.
  rewrite <- (size_dom (D := gset string)).
  change (size (dom m)) with (length (elements (dom m))).
  apply submseteq_length, NoDup_submseteq; [done|].
  intros x Hx. by apply elem_of_elements, elem_of_dom, Hall.
Qed.

Section Album.
Variable createAlbumPage : gmap string string → Completion string.

Lemma handleDownloadAlbum_refuses w :
  (size (imageData (generatedImages (react w))) < length (selectedDecades (react w)))%nat →
  ∃ w', handleDownloadAlbum createAlbumPage w = (Normal tt, w') ∧
        trace w' = (trace w ++
          [alert "Please wait for all images to finish generating before downloading the album."])%list ∧
        isDownloading (react w') = false.
Proof.
  intros Hlt. unfold handleDownloadAlbum, bind, try_finally, try_catch, gets,
    setIsDownloading, modify. simpl.
  rewrite bool_decide_eq_true_2 by done. simpl. eauto.
Qed.

Lemma handleDownloadAlbum_composes w :
  ¬ (size (imageData (generatedImages (react w))) < length (selectedDecades (react w)))%nat →
  ∃ w', handleDownloadAlbum createAlbumPage w = (Normal tt, w') ∧
        trace w' = (trace w ++
          match createAlbumPage (imageData (generatedImages (react w))) with
          | Normal albumDataUrl => [download albumDataUrl "past-forward-album.jpg"]
          | Throw _ =>
              [console_error "Failed to create or download album:";
               alert "Sorry, there was an error creating your album. Please try again."]
          end)%list ∧
        isDownloading (react w') = false.
Proof.
  intros Hge. unfold handleDownloadAlbum, bind, try_finally, try_catch, gets,
    setIsDownloading, modify. simpl.
  rewrite bool_decide_eq_false_2 by done. unfold await.
  destruct (createAlbumPage _) as [album|err]; simpl.
  - eauto.
  - eexists. split; [reflexivity|]. simpl. by rewrite <- app_assoc.
Qed.
End Album.

(** *** The migration of the legacy history *)

Lemma for_of_saveHistoryItem items w :
  for_of items saveHistoryItem w
  = (Normal tt, with_db (λ store, foldl saved store items) w).
Proof.
  revert w. induction items as [|item items IH]; intros w; simpl.
  - by destruct w.
  - unfold bind. unfold saveHistoryItem at 1, modify. by rewrite IH.
Qed.



Section Migration.
Variable JSON_parse_history : string → option (list HistoryItem.t).

(** A run of [initHistory] that finds a legacy log. *)
Lemma initHistory_legacy w s items :
  localStorage w !! "flashback_history" = Some s →
  truthy s = true →
  JSON_parse_history s = Some items →
  ∃ w', initHistory JSON_parse_history w = (Normal tt, w') ∧
        db w' = foldl saved (db w) items ∧
        localStorage w' = delete "flashback_history" (localStorage w) ∧
        trace w' = (trace w ++
          [console_log "Migrated history from localStorage to IndexedDB"])%list ∧
        history (react w') = merge_sort newer (map_to_list (db w')).*2.
Proof.
  intros Hkey Htruthy Hparse.
  unfold initHistory. unfold bind at 1. unfold bind at 1. unfold gets at 1.
  rewrite Hkey. unfold present. rewrite Htruthy.
  unfold mbind, option_bind. rewrite Hparse.
  unfold try_catch at 1. unfold bind at 1. unfold ret at 1.
  unfold bind at 1. rewrite for_of_saveHistoryItem.
  eexists. split; [reflexivity|]. done.
Qed.

(** A run of [initHistory] that finds none. *)
Lemma initHistory_clean w :
  localStorage w !! "flashback_history" = None →
  ∃ w', initHistory JSON_parse_history w = (Normal tt, w') ∧
        db w' = db w ∧ localStorage w' = localStorage w ∧ trace w' = trace w ∧
        history (react w') = merge_sort newer (map_to_list (db w')).*2.
Proof.
  intros Hkey.
  unfold initHistory. unfold bind at 1. unfold bind at 1. unfold gets at 1.
  rewrite Hkey. unfold present.
  eexists. split; [reflexivity|]. done.
Qed.

(** A run of [initHistory] that cannot read the legacy text: nothing is
    saved and the legacy copy stays. *)
Lemma initHistory_unreadable w s :
  localStorage w !! "flashback_history" = Some s →
  truthy s = true →
  JSON_parse_history s = None →
  ∃ w', initHistory JSON_parse_history w = (Normal tt, w') ∧
        db w' = db w ∧ localStorage w' = localStorage w ∧
        trace w' = (trace w ++ [console_error "Failed to migrate history"])%list.
Proof.
  intros Hkey Htruthy Hparse.
  unfold initHistory. unfold bind at 1. unfold bind at 1. unfold gets at 1.
  rewrite Hkey. unfold present. rewrite Htruthy.
  unfold mbind, option_bind. rewrite Hparse.
  eexists. split; [reflexivity|]. done.
Qed.

(** [initHistory] touches no key of the storage but the legacy one. *)
Lemma initHistory_other_keys w k :
  k ≠ "flashback_history" →
  localStorage (initHistory JSON_parse_history w).2 !! k = localStorage w !! k.
Proof.
  intros Hk.
  destruct (localStorage w !! "flashback_history") as [s|] eqn:Hkey.
  - destruct (truthy s) eqn:Htruthy.
    + destruct (JSON_parse_history s) as [items|] eqn:Hparse.
      * destruct (initHistory_legacy w s items Hkey Htruthy Hparse)
          as (w' & Hrun & _ & Hls & _).
        rewrite Hrun. simpl. rewrite Hls. by rewrite lookup_delete_ne.
      * destruct (initHistory_unreadable w s Hkey Htruthy Hparse)
          as (w' & Hrun & _ & Hls & _).
        rewrite Hrun. simpl. by rewrite Hls.
    + unfold initHistory. unfold bind at 1. unfold bind at 1. unfold gets at 1.
      rewrite Hkey. unfold present. by rewrite Htruthy.
  - destruct (initHistory_clean w Hkey) as (w' & Hrun & _ & Hls & _).
    rewrite Hrun. simpl. by rewrite Hls.
Qed.
End Migration.

(** *** The auto-save effect *)

Lemma autoSave_saves now w uploaded sessionId :
  uploadedImage (react w) = Some uploaded →
  currentSessionId (react w) = Some sessionId →
  appState (react w) ≠ idle →
  truthy uploaded = true →
  truthy sessionId = true →
  ∃ w', autoSave now w = (Normal tt, w') ∧
        history (react w')
        = upsert (newItem now (react w) sessionId uploaded) (history (react w)) ∧
        db w' = saved (db w) (newItem now (react w) sessionId uploaded) ∧
        localStorage w' = localStorage w ∧ trace w' = trace w.
Proof.
  intros Himage Hsession Hstate Hu Hs.
  unfold autoSave, bind, gets. rewrite Himage, Hsession, Hu, Hs.
  rewrite bool_decide_eq_true_2 by done. simpl.
  eexists. split; [reflexivity|]. done.
Qed.

(** After the effect has run, the history has exactly one entry of the
    session, the record just saved, and the keyed store holds that record:
    so it is after the first save of a session and after every later one. *)
Lemma autoSave_one_entry now w uploaded sessionId :
  uploadedImage (react w) = Some uploaded →
  currentSessionId (react w) = Some sessionId →
  appState (react w) ≠ idle →
  truthy uploaded = true →
  truthy sessionId = true →
  filter (λ item, HistoryItem.id item = sessionId)
         (history (react (autoSave now w).2))
  = [newItem now (react w) sessionId uploaded] ∧
  db (autoSave now w).2 !! sessionId = Some (newItem now (react w) sessionId uploaded).
Proof.
  intros Himage Hsession Hstate Hu Hs.
  destruct (autoSave_saves now w uploaded sessionId Himage Hsession Hstate Hu Hs)
    as (w' & Hrun & Hhistory & Hdb & _).
  rewrite Hrun. simpl. rewrite Hhistory, Hdb. split.
  - apply (upsert_once (newItem now (react w) sessionId uploaded)).
  - apply lookup_insert_eq.
Qed.
End AppFacts.

Module AppClaims.
Import App AppSpec AppFacts Examples.



(** C2.  For a decade whose entry is pending, [handleRegenerateDecade]
    returns at once: the hooks, both stores and the events are what they
    were, and no request is made. *)
Theorem handleRegenerateDecade_pending generateDecadeImage decade w g :
  generatedImages (react w) !! decade = Some g →
  status g = ImageStatus.pending →
  handleRegenerateDecade generateDecadeImage decade w = (Normal tt, w).
Proof.
  intros Hentry Hpending.
  unfold handleRegenerateDecade, bind, gets.
  destruct (uploadedImage (react w)) as [uploaded|]; [|done].
  destruct (truthy uploaded); [|done]. simpl.
  rewrite Hentry. simpl. by rewrite bool_decide_eq_true_2.
Qed.

Lemma handleRegenerateDecade_pending_witness :
  handleRegenerateDecade service "1950s"
    (world (two_decades {[ "1950s" := pending_image ]}))
  = (Normal tt, world (two_decades {[ "1950s" := pending_image ]})).
Proof.
  apply (handleRegenerateDecade_pending service "1950s"
           (world (two_decades {[ "1950s" := pending_image ]})) pending_image).
  - vm_compute. reflexivity.
  - reflexivity.
Defined.

(** C8.  When the request of a decade settles, with an image or with an
    error, the update writes the entry of that decade and nothing else:
    the entry of every other decade is what it was, and so is every other
    hook. *)
Theorem settle_frame uploaded decade result w other :
  other ≠ decade →
  ∃ w', step uploaded (Settle decade result) w = (Normal tt, w') ∧
        generatedImages (react w') !! other = generatedImages (react w) !! other ∧
        generatedImages (react w') !! decade = Some (image_of result) ∧
        react w' = with_images (generatedImages (react w')) (react w).
Proof.
  intros Hne.
  destruct (step_run uploaded (0, Settle decade result) w)
    as (w' & Hstep & Hreact & _ & _).
  exists w'. split; [exact Hstep|]. rewrite Hreact. simpl.
  unfold apply_step. simpl.
  split; [by apply settled_lookup_ne|].
  split; [apply settled_lookup|done].
Qed.

Lemma settle_frame_witness :
  ∃ w', step "data:image/png;base64,AAAA"
          (Settle "1960s" (Throw (Error "quota exceeded")))
          (world (two_decades (initialImages ["1950s"; "1960s"])))
        = (Normal tt, w') ∧
        generatedImages (react w') !! "1950s"
        = generatedImages (two_decades (initialImages ["1950s"; "1960s"])) !! "1950s" ∧
        generatedImages (react w') !! "1960s"
        = Some (image_of (Throw (Error "quota exceeded"))) ∧
        react w' = with_images (generatedImages (react w'))
                     (two_decades (initialImages ["1950s"; "1960s"])).
Proof.
  apply (settle_frame "data:image/png;base64,AAAA" "1960s"
           (Throw (Error "quota exceeded"))
           (world (two_decades (initialImages ["1950s"; "1960s"]))) "1950s").
  discriminate.
Defined.

(** C7.  Saving is idempotent on the identifier: for every history list,
    after the auto-save updater has run twice with records of the same
    identifier, the list has exactly one entry with that identifier, and
    it is the record of the latest save. *)
Theorem upsert_idempotent (prev : list HistoryItem.t) (first latest : HistoryItem.t) :
  HistoryItem.id first = HistoryItem.id latest →
  filter (λ item, HistoryItem.id item = HistoryItem.id first)
         (upsert latest (upsert first prev))
  = [latest].
Proof.
  intros Hid. rewrite Hid.
  destruct (upsert_head latest (upsert first prev)) as (rest & -> & Hrest).
  rewrite filter_cons_True by done. f_equal.
  induction Hrest as [|item rest Hitem _ IH]; [done|].
  by rewrite filter_cons_False.
Qed.

Lemma upsert_idempotent_witness :
  filter (λ item, HistoryItem.id item = HistoryItem.id first_save)
         (upsert latest_save (upsert first_save [legacy_item; first_save]))
  = [latest_save].
Proof.
  apply (upsert_idempotent [legacy_item; first_save] first_save latest_save).
  reflexivity.
Defined.

(** C5, as the code has it.  [handleDownloadAlbum] always returns with
    the downloading flag cleared.  When every completed entry of the
    result map belongs to a selected decade and some selected decade has
    no completed entry, it shows the alert and produces no file.  When
    the selected decades are distinct, each has a completed entry and
    the compositor succeeds, it produces exactly one file, the album. *)
Theorem handleDownloadAlbum_guard createAlbumPage w :
  ∃ w', handleDownloadAlbum createAlbumPage w = (Normal tt, w') ∧
        isDownloading (react w') = false ∧
        ((∀ decade, has_completed (react w) decade →
                    decade ∈ selectedDecades (react w)) →
         (∃ decade, decade ∈ selectedDecades (react w) ∧
                    ¬ has_completed (react w) decade) →
         trace w' = (trace w ++
           [alert "Please wait for all images to finish generating before downloading the album."])%list) ∧
        (NoDup (selectedDecades (react w)) →
         (∀ decade, decade ∈ selectedDecades (react w) →
                    has_completed (react w) decade) →
         ∀ albumDataUrl,
           createAlbumPage (imageData (generatedImages (react w))) = Normal albumDataUrl →
           trace w' = (trace w ++ [download albumDataUrl "past-forward-album.jpg"])%list).
Proof.
  destruct (decide (size (imageData (generatedImages (react w)))
                    < length (selectedDecades (react w)))%nat) as [Hlt|Hge].
  - destruct (handleDownloadAlbum_refuses createAlbumPage w Hlt)
      as (w' & Hrun & Htrace & Hflag).
    exists w'. repeat split; try done.
    intros Hnodup Hall. exfalso.
    pose proof (size_covering (imageData (generatedImages (react w)))
                  (selectedDecades (react w)) Hnodup) as Hcover.
    assert (length (selectedDecades (react w))
            ≤ size (imageData (generatedImages (react w))))%nat; [|lia].
    apply Hcover. intros decade Hdecade. by apply has_completed_imageData, Hall.
  - destruct (handleDownloadAlbum_composes createAlbumPage w Hge)
      as (w' & Hrun & Htrace & Hflag).
    exists w'. repeat split; try done.
    + intros Hsub (decade & Hdecade & Hlacks). exfalso. apply Hge.
      apply (size_lacking _ _ decade); [|done|].
      * intros k Hk. by apply Hsub, has_completed_imageData.
      * destruct (imageData _ !! decade) eqn:Hlookup; [|done].
        exfalso. apply Hlacks, has_completed_imageData. by rewrite Hlookup.
    + intros _ _ albumDataUrl Halbum. by rewrite Htrace, Halbum.
Qed.

Lemma handleDownloadAlbum_guard_witness :
  (∃ w', handleDownloadAlbum compositor (world (two_decades completed_1950s))
         = (Normal tt, w') ∧
         trace w' =
           [alert "Please wait for all images to finish generating before downloading the album."]) ∧
  (∃ w', handleDownloadAlbum compositor (world (two_decades completed_both))
         = (Normal tt, w') ∧
         trace w' = [download "data:image/jpeg;base64,ALBUM" "past-forward-album.jpg"]).
Proof.
  split.
  - destruct (handleDownloadAlbum_guard compositor (world (two_decades completed_1950s)))
      as (w' & Hrun & _ & Hrefuse & _).
    exists w'. split; [exact Hrun|]. apply Hrefuse.
    + intros decade (g & u & Hg & _). simpl in Hg. unfold completed_1950s in Hg.
      apply lookup_singleton_Some in Hg as [<- _]. left.
    + exists "1960s". split; [right; left|].
      intros (g & u & Hg & _). vm_compute in Hg. discriminate.
  - destruct (handleDownloadAlbum_guard compositor (world (two_decades completed_both)))
      as (w' & Hrun & _ & _ & Hcompose).
    exists w'. split; [exact Hrun|]. apply Hcompose.
    + apply NoDup_cons. split; [|apply NoDup_singleton].
      intros Hin%list_elem_of_singleton. discriminate.
    + intros decade Hdecade.
      apply elem_of_cons in Hdecade as [->|Hdecade].
      { exists (done_image "data:image/png;base64,BBBB"), "data:image/png;base64,BBBB".
        split; [vm_compute; reflexivity|]. repeat split. }
      apply list_elem_of_singleton in Hdecade as ->.
      exists (done_image "data:image/png;base64,CCCC"), "data:image/png;base64,CCCC".
      split; [vm_compute; reflexivity|]. repeat split.
    + reflexivity.
Defined.

(** C5, as the specification words it, fails when the result map holds a
    completed entry of a decade that is not selected: the only selected
    decade, the 1960s, is in error, the guard counts the stale entry of
    the 1950s, and the album is composed and downloaded. *)
Lemma album_refused_stale_entry :
  ¬ album_refused compositor (world stale_entry).
Proof.
  intros Hclaim. destruct Hclaim as (added & Htrace & Hfiles & _).
  - exists "1960s". split; [left|].
    intros (g & u & Hg & Hdone & _). vm_compute in Hg.
    injection Hg as <-. discriminate.
  - vm_compute in Htrace. subst added. discriminate.
Qed.



(** The state of the counterexample of C5 is one the page reaches: a click
    on a session of the history while the request of another session is in
    flight leaves the answer of that request in the result map of the
    opened session. *)
Example stale_entry_reachable :
  interleaved (world one_decade) = (Normal tt, world_after_interleaving).
Proof. vm_compute. reflexivity. Qed.
End AppClaims.

(** ** More on the rate gauge *)

Module RateLimitExtras.
Import RateLimitService RateLimitSpec RateLimitFacts RateLimitStore Examples.








(** X1.  [recordGeneration] keeps the log in order: from a stored log in
    chronological order whose entries are not later than the clock, it
    writes a log in chronological order whose entries are not later than
    the clock. *)
Theorem recordGeneration_keeps_order `{Platform} env now count (ls : Storage) history M C :
  stored_log ls history →
  configured env M C →
  Sorted Z.le history →
  (∀ t, t ∈ history → t ≤ now) →
  ∃ history',
    recordGeneration env now count ls
    = (Normal tt,
       <[STORAGE_KEY := JSON_stringify (JArray (JNumber <$> history'))]> ls) ∧
    Sorted Z.le history' ∧
    (∀ t, t ∈ history' → t ≤ now).
Proof.
  intros Hlog Hcfg Hsorted Hnow.
  destruct (recordGeneration_chronological env now count ls history M C
              Hlog Hcfg Hsorted Hnow) as (history' & Hrun & Hdef & Hsorted').
  exists history'. split; [exact Hrun|]. split; [exact Hsorted'|].
  intros t Ht. rewrite Hdef in Ht.
  apply list_elem_of_filter in Ht as [_ Ht].
  apply elem_of_app in Ht as [Ht|Ht]; [by apply Hnow|].
  apply elem_of_replicate in Ht as [-> _]. lia.
Qed.

Lemma recordGeneration_keeps_order_witness :
  ∃ history',
    recordGeneration (H := Host.host) two_minutes_three 100000 2 chronological
    = (Normal tt,
       <[STORAGE_KEY := Host.stringify (JArray (JNumber <$> history'))]> chronological) ∧
    Sorted Z.le history' ∧
    (∀ t, t ∈ history' → t ≤ 100000).
Proof.
  apply (recordGeneration_keeps_order (H := Host.host) two_minutes_three 100000 2
           chronological [10000; 90000] 2 3).
  - vm_compute. reflexivity.
  - vm_compute. split; reflexivity.
  - repeat constructor. lia.
  - intros t Ht.
    apply elem_of_cons in Ht as [->|Ht]; [lia|].
    apply elem_of_cons in Ht as [->|Ht]; [lia|].
    by apply elem_of_nil in Ht.
Defined.







(** X5.  A refused request is told to wait between one minute and the
    whole window: when the first active entry of the log is not later
    than the clock, [resetInMinutes] is at least 1 and at most the window,
    and [resetAt] is that entry plus the window, a time still to come. *)
Theorem reset_within_window `{Platform} env now R (ls : Storage) history M C o rest :
  stored_log ls history →
  configured env M C →
  active now M history = o :: rest →
  o ≤ now →
  C < active_count now M history + R →
  ∃ r m, checkLimit env now R ls = (Normal r, ls) ∧
         allowed r = false ∧
         resetInMinutes r = Num m ∧ 1 ≤ m ≤ M ∧
         resetAt r = JNumber (o + M * 60 * 1000) ∧
         now < o + M * 60 * 1000.
Proof.
  intros Hlog Hcfg Hactive Ho Hover.
  assert (Hyoung : younger_than now M o).
  { assert (Hin : o ∈ active now M history) by (rewrite Hactive; left).
    by apply list_elem_of_filter in Hin as [Hin _]. }
  unfold younger_than in Hyoung.
  eexists. eexists. split; [by apply checkLimit_stored|].
  simpl. rewrite Hactive. rewrite bool_decide_eq_false_2 by lia.
  split; [done|]. split; [reflexivity|].
  pose proof (rounded_up_ceiling (M * 60 * 1000 - (now - o)) (60 * 1000)
                ltac:(lia)) as [Hlo Hhi].
  split; [|split; [done|lia]].
  lia.
Qed.

Lemma reset_within_window_witness :
  ∃ r m, checkLimit (H := Host.host) defaults 100000 10 out_of_order
         = (Normal r, out_of_order) ∧
         allowed r = false ∧
         resetInMinutes r = Num m ∧ 1 ≤ m ≤ 5 ∧
         resetAt r = JNumber (90000 + 5 * 60 * 1000) ∧
         100000 < 90000 + 5 * 60 * 1000.
Proof.
  apply (reset_within_window (H := Host.host) defaults 100000 10 out_of_order
           [90000; 10000] 5 10 90000 [10000]).
  - vm_compute. reflexivity.
  - vm_compute. split; reflexivity.
  - vm_compute. reflexivity.
  - lia.
  - vm_compute. reflexivity.
Defined.

(** X6.  On a stored value that is no array, [checkLimit] and
    [recordGeneration] throw a TypeError, whatever is requested, and
    [recordGeneration] throws before it writes: the storage is left as it
    was. *)
Theorem not_an_array_throws `{Platform} env now R count (ls : Storage) v :
  (getHistory ls).1 = Normal v →
  ¬ is_list v →
  checkLimit env now R ls = (Throw TypeError, ls) ∧
  recordGeneration env now count ls = (Throw TypeError, ls).
Proof.
  intros Hv Hlist.
  destruct (getHistory_returns ls) as [v' Hg]. rewrite Hg in Hv.
  simpl in Hv. injection Hv as ->.
  unfold checkLimit, recordGeneration, bind. rewrite Hg.
  destruct v; try (split; [reflexivity|by destruct (Z.to_nat count)]).
  by destruct Hlist.
Qed.

Lemma not_an_array_throws_witness :
  checkLimit (H := Host.host) defaults 100000 1 null_log = (Throw TypeError, null_log) ∧
  recordGeneration (H := Host.host) defaults 100000 1 null_log
  = (Throw TypeError, null_log).
Proof.
  apply (not_an_array_throws (H := Host.host) defaults 100000 1 1 null_log JNull).
  - vm_compute. reflexivity.
  - intros [].
Defined.

(** X7.  Without a readable log (no key, an empty text, or a text the
    engine cannot parse) [checkLimit] works on an empty log: the request
    is allowed exactly when it fits under the ceiling by itself, and a
    refused request gets [resetInMinutes] 0, there being no entry to wait
    for. *)
Theorem checkLimit_without_log `{Platform} env now R (ls : Storage) M C :
  (ls !! STORAGE_KEY = None ∨
   ls !! STORAGE_KEY = Some EmptyString ∨
   ∃ s, ls !! STORAGE_KEY = Some s ∧ JSON_parse s = None) →
  configured env M C →
  ∃ r, checkLimit env now R ls = (Normal r, ls) ∧
       (allowed r = true ↔ R ≤ C) ∧
       remaining r = Z.max 0 C ∧
       resetInMinutes r = Num 0 ∧
       resetAt r = JNumber 0.
Proof.
  intros Hnone Hcfg.
  assert (Hlog : stored_log ls []).
  { unfold stored_log. destruct Hnone as [Hk|[Hk|(s & Hk & Hs)]].
    - by rewrite getHistory_missing.
    - by rewrite getHistory_empty.
    - by rewrite (getHistory_malformed ls s). }
  eexists. split; [by apply checkLimit_stored|].
  simpl. rewrite bool_decide_eq_true. unfold active_count. simpl.
  repeat split; lia.
Qed.

Lemma checkLimit_without_log_witness :
  ∃ r, checkLimit (H := Host.host) two_minutes_three 100000 4 ∅ = (Normal r, ∅) ∧
       (allowed r = true ↔ 4 ≤ 3) ∧
       remaining r = Z.max 0 3 ∧
       resetInMinutes r = Num 0 ∧
       resetAt r = JNumber 0.
Proof.
  apply (checkLimit_without_log (H := Host.host) two_minutes_three 100000 4 ∅ 2 3).
  - left. reflexivity.
  - vm_compute. split; reflexivity.
Defined.
End RateLimitExtras.

(** ** More on the handlers of App *)

Module AppExtras.
Import App AppSpec AppFacts AppMore MoreSpec Examples.

(** *** The generation *)

Lemma for_of_steps_trace uploaded (events : list (Z * Step)) w :
  trace (for_of events (λ e, step uploaded e.2) w).2
  = (trace w ++ (events ≫= step_events uploaded))%list.
Proof.
  revert w. induction events as [|e events IH]; intros w.
  { simpl. by rewrite app_nil_r. }
  rewrite bind_cons. cbn [for_of]. unfold bind at 1.
  destruct e as [t [decade|decade [resultUrl|err]]]; simpl;
    rewrite IH; simpl; by rewrite <- ?app_assoc.
Qed.

Section Generation.
Variable generateDecadeImage : string → string → Response.

Lemma handleGenerateClick_trace now w uploaded :
  uploadedImage (react w) = Some uploaded →
  truthy uploaded = true →
  selectedDecades (react w) ≠ [] →
  trace (handleGenerateClick generateDecadeImage now w).2
  = (trace w ++
     (generationPromises generateDecadeImage uploaded (selectedDecades (react w))
        ≫= step_events uploaded))%list.
Proof.
  intros Himage Htruthy Hsome.
  unfold handleGenerateClick. unfold bind at 1. unfold gets at 1.
  rewrite Himage, Htruthy. simpl negb. simpl orb.
  rewrite bool_decide_eq_false_2 by (by destruct (selectedDecades (react w))).
  unfold bind, setIsLoading, setAppState, setCurrentSessionId, setGeneratedImages,
    modify. simpl.
  match goal with
  | |- context [for_of ?events ?body ?w0] =>
      destruct (for_of_steps uploaded events w0) as (w1 & Hrun & _);
      pose proof (for_of_steps_trace uploaded events w0) as Htrace
  end.
  rewrite Hrun in Htrace |- *. simpl in Htrace |- *. exact Htrace.
Qed.

Lemma requests_of_moments uploaded decades k :
  requests (mjoin (imap (λ index decade,
                           processDecade generateDecadeImage uploaded decade (k + index))
                        decades)
            ≫= step_events uploaded)
  = (λ decade, request uploaded (prompt decade)) <$> decades.
Proof.
  revert k. induction decades as [|decade decades IH]; intros k; [done|].
  rewrite imap_cons, fmap_cons.
  change (mjoin (?x :: ?l)) with (x ++ mjoin l)%list.
  rewrite bind_app. unfold requests in *. rewrite filter_app.
  rewrite (imap_ext _ (λ index d, processDecade generateDecadeImage uploaded d (S k + index)));
    [|intros i d _; simpl; f_equal; lia].
  rewrite IH.
  unfold processDecade, step_events. simpl.
  by destruct (outcome (generateDecadeImage uploaded (prompt decade))).
Qed.

(** X8.  Without a photo, or with no decade selected, a click on Generate
    does nothing at all: hooks, stores and events stay as they are and no
    request leaves. *)
Theorem generate_needs_photo_and_decades now w :
  present (uploadedImage (react w)) = false ∨ selectedDecades (react w) = [] →
  handleGenerateClick generateDecadeImage now w = (Normal tt, w).
Proof. intros Hguard. by apply handleGenerateClick_idle. Qed.


(** X10.  One request per decade: the requests a generation sends are, in
    some order, one for each entry of the list of selected decades, each
    with the uploaded photo and the prompt of its decade. *)
Theorem generate_one_request_each now w uploaded :
  uploadedImage (react w) = Some uploaded →
  truthy uploaded = true →
  selectedDecades (react w) ≠ [] →
  ∃ added,
    trace (handleGenerateClick generateDecadeImage now w).2 = (trace w ++ added)%list ∧
    requests added
    ≡ₚ (λ decade, request uploaded (prompt decade)) <$> selectedDecades (react w).
Proof.
  intros Himage Htruthy Hsome. eexists.
  split; [by apply handleGenerateClick_trace|].
  unfold generationPromises, requests.
  rewrite merge_sort_Permutation.
  pose proof (requests_of_moments uploaded (selectedDecades (react w)) 0) as Hreq.
  unfold requests in Hreq. simpl in Hreq. by rewrite Hreq.
Qed.
End Generation.

Lemma generate_needs_photo_and_decades_witness :
  handleGenerateClick service 1700000000000
    (world (two_decades_of [] ∅))
  = (Normal tt, world (two_decades_of [] ∅)).
Proof.
  apply (generate_needs_photo_and_decades service 1700000000000
           (world (two_decades_of [] ∅))).
  right. reflexivity.
Defined.


Lemma generate_one_request_each_witness :
  ∃ added,
    trace (handleGenerateClick service 1700000000000 (world (two_decades ∅))).2
    = ([] ++ added)%list ∧
    requests added
    ≡ₚ (λ decade, request "data:image/png;base64,AAAA" (prompt decade))
       <$> ["1950s"; "1960s"].
Proof.
  apply (generate_one_request_each service 1700000000000
           (world (two_decades ∅)) "data:image/png;base64,AAAA").
  - reflexivity.
  - reflexivity.
  - discriminate.
Defined.

(** *** Regenerating one decade *)



(** *** The downloads *)

(** X12.  Whatever the result map holds and whatever the compositor
    does, [handleDownloadAlbum] returns normally with the downloading flag
    cleared, produces at most one file, and changes nothing else: the
    session, the history and both stores are as before.  When the
    compositor throws, there is no file and the second alert is shown. *)
Theorem download_album_always createAlbumPage w :
  ∃ w' added,
    handleDownloadAlbum createAlbumPage w = (Normal tt, w') ∧
    trace w' = (trace w ++ added)%list ∧
    (length (filter is_file added) ≤ 1)%nat ∧
    isDownloading (react w') = false ∧
    same_session (react w) (react w') ∧
    history (react w') = history (react w) ∧
    localStorage w' = localStorage w ∧ db w' = db w ∧
    (∀ err,
       createAlbumPage (imageData (generatedImages (react w))) = Throw err →
       filter is_file added = [] ∧
       (added = [alert "Please wait for all images to finish generating before downloading the album."] ∨
        added = [console_error "Failed to create or download album:";
                 alert "Sorry, there was an error creating your album. Please try again."])).
Proof.
  unfold handleDownloadAlbum, bind, try_finally, try_catch, gets,
    setIsDownloading, modify. simpl.
  destruct (bool_decide _); simpl.
  - eexists.
    exists [alert "Please wait for all images to finish generating before downloading the album."].
    split; [reflexivity|]. simpl.
    split; [done|]. split; [vm_compute; lia|].
    do 5 (split; [done|]).
    intros err _. split; [reflexivity|by left].
  - unfold await.
    destruct (createAlbumPage _) as [album|err] eqn:Halbum; simpl.
    + eexists. exists [download album "past-forward-album.jpg"].
      split; [reflexivity|]. simpl.
      split; [done|]. split; [vm_compute; lia|].
      do 5 (split; [done|]).
      intros err [=].
    + eexists. exists [console_error "Failed to create or download album:";
                       alert "Sorry, there was an error creating your album. Please try again."].
      split; [reflexivity|]. simpl. rewrite <- app_assoc.
      split; [done|]. split; [vm_compute; lia|].
      do 5 (split; [done|]).
      intros err' _. split; [reflexivity|by right].
Qed.

Lemma download_album_always_witness :
  ∃ w' added,
    handleDownloadAlbum failing (world (two_decades completed_both)) = (Normal tt, w') ∧
    trace w' = ([] ++ added)%list ∧
    filter is_file added = [] ∧
    added = [console_error "Failed to create or download album:";
             alert "Sorry, there was an error creating your album. Please try again."].
Proof.
  destruct (download_album_always failing (world (two_decades completed_both)))
    as (w' & added & Hrun & Htrace & _ & _ & _ & _ & _ & _ & Hfail).
  exists w', added. split; [exact Hrun|]. split; [exact Htrace|].
  destruct (Hfail (Error "canvas") eq_refl) as [Hnone [Hwait|Hsorry]].
  - exfalso. rewrite Hwait in Htrace. vm_compute in Hrun.
    injection Hrun as <-. discriminate.
  - split; [exact Hnone|exact Hsorry].
Defined.

(** X13.  [handleDownloadIndividualImage] produces a file exactly for a
    decade with a completed result: the file is that result's url under
    the name of the decade; for any other decade nothing happens.  It
    never changes a hook or a store. *)
Theorem download_single_image decade w :
  ∃ w' added,
    handleDownloadIndividualImage decade w = (Normal tt, w') ∧
    react w' = react w ∧ localStorage w' = localStorage w ∧ db w' = db w ∧
    trace w' = (trace w ++ added)%list ∧
    ((∃ g href, generatedImages (react w) !! decade = Some g ∧
                status g = ImageStatus.done ∧ url g = Some href ∧
                truthy href = true ∧
                added = [download href ("past-forward-" ++ decade ++ ".jpg")]) ∨
     (¬ has_completed (react w) decade ∧ added = [])).
Proof.
  unfold handleDownloadIndividualImage, bind, gets.
  destruct (generatedImages (react w) !! decade) as [g|] eqn:Hg.
  - destruct (completed g) as [href|] eqn:Hc.
    + apply completed_Some in Hc as (Hdone & Hurl & Htruthy).
      eexists. eexists. split; [reflexivity|]. simpl.
      repeat split. left. by exists g, href.
    + exists w, []. split; [reflexivity|]. rewrite app_nil_r.
      repeat split. right. split; [|done].
      intros (g' & u & Hg' & Hdone & Hurl & Hu).
      rewrite Hg in Hg'. injection Hg' as <-.
      assert (completed g = Some u) as Hsome by (by apply completed_Some).
      congruence.
  - exists w, []. split; [reflexivity|]. rewrite app_nil_r.
    repeat split. right. split; [|done].
    intros (g' & u & Hg' & _). congruence.
Qed.

(** *** The decade buttons *)

Lemma List_filter_sublist {A} (f : A → bool) (l : list A) :
  List.filter f l `sublist_of` l.
Proof.
  induction l as [|x l IH]; simpl; [constructor|].
  destruct (f x); by constructor.
Qed.

Lemma List_filter_other (decade : string) (l : list string) :
  decade ∉ l → List.filter (λ d, negb (String.eqb d decade)) l = l.
Proof.
  induction l as [|x l IH]; intros Hout; [done|]. simpl.
  apply not_elem_of_cons in Hout as [Hne Hout].
  destruct (String.eqb_spec x decade) as [->|_]; [done|]. simpl. by rewrite IH.
Qed.

Lemma List_filter_gone (decade : string) (l : list string) :
  decade ∉ List.filter (λ d, negb (String.eqb d decade)) l.
Proof.
  intros Hin. apply list_elem_of_In, filter_In in Hin as [_ Hin].
  apply negb_true_iff, String.eqb_neq in Hin. done.
Qed.

(** X14.  The decade buttons keep the selection sound: from a selection
    of at most six distinct decades a click leaves a selection of at most
    six distinct decades, and changes no other hook. *)
Theorem clickDecade_keeps_selection decade w :
  NoDup (selectedDecades (react w)) →
  (length (selectedDecades (react w)) ≤ 6)%nat →
  ∃ w', clickDecade decade w = (Normal tt, w') ∧
        NoDup (selectedDecades (react w')) ∧
        (length (selectedDecades (react w')) ≤ 6)%nat ∧
        generatedImages (react w') = generatedImages (react w) ∧
        uploadedImage (react w') = uploadedImage (react w) ∧
        appState (react w') = appState (react w) ∧
        currentSessionId (react w') = currentSessionId (react w) ∧
        history (react w') = history (react w).
Proof.
  intros Hnodup Hlen. unfold clickDecade, bind, gets, isDisabled, isSelected.
  destruct (decide (decade ∈ selectedDecades (react w))) as [Hin|Hout].
  - rewrite bool_decide_eq_true_2 by done. simpl.
    eexists. split; [reflexivity|]. simpl.
    pose proof (List_filter_sublist (λ d, negb (String.eqb d decade))
                  (selectedDecades (react w))) as Hsub.
    split; [by eapply sublist_NoDup|].
    split; [|done]. apply sublist_length in Hsub. lia.
  - rewrite bool_decide_eq_false_2 by done. simpl.
    destruct (decide (6 ≤ length (selectedDecades (react w)))%nat) as [Hfull|Hroom].
    + rewrite bool_decide_eq_true_2 by done.
      exists w. done.
    + rewrite bool_decide_eq_false_2 by done.
      eexists. split; [reflexivity|]. simpl.
      split; [|split; [rewrite length_app; simpl; lia|done]].
      apply NoDup_app. split; [done|]. split; [|apply NoDup_singleton].
      intros x Hx ->%list_elem_of_singleton. done.
Qed.

Lemma clickDecade_keeps_selection_witness :
  ∃ w', clickDecade "2010s" (world (two_decades_of initialDecades ∅)) = (Normal tt, w') ∧
        NoDup (selectedDecades (react w')) ∧
        (length (selectedDecades (react w')) ≤ 6)%nat ∧
        generatedImages (react w') = ∅ ∧
        uploadedImage (react w') = Some "data:image/png;base64,AAAA" ∧
        appState (react w') = image_uploaded ∧
        currentSessionId (react w') = None ∧
        history (react w') = [].
Proof.
  apply (clickDecade_keeps_selection "2010s" (world (two_decades_of initialDecades ∅))).
  - apply (bool_decide_unpack _). vm_compute. exact I.
  - vm_compute. lia.
Defined.

Lemma clickDecade_selection decade w :
  selectedDecades (react (clickDecade decade w).2)
  = if isDisabled (react w) decade then selectedDecades (react w)
    else if isSelected (react w) decade
         then List.filter (λ d, negb (String.eqb d decade)) (selectedDecades (react w))
         else (selectedDecades (react w) ++ [decade])%list.
Proof.
  unfold clickDecade, bind, gets.
  by destruct (isDisabled (react w) decade), (isSelected (react w) decade).
Qed.

(** X15.  A click that the button takes flips the decade: a selected
    decade is removed, an unselected one is added at the end; and a second
    click on a decade just added gives back the selection as it was. *)
Theorem clickDecade_toggles decade w :
  isDisabled (react w) decade = false →
  let w1 := (clickDecade decade w).2 in
  isSelected (react w1) decade = negb (isSelected (react w) decade) ∧
  (isSelected (react w) decade = false →
   selectedDecades (react w1) = (selectedDecades (react w) ++ [decade])%list ∧
   selectedDecades (react (clickDecade decade w1).2) = selectedDecades (react w)).
Proof.
  intros Henabled w1.
  assert (Hsel : selectedDecades (react w1)
                 = if isSelected (react w) decade
                   then List.filter (λ d, negb (String.eqb d decade))
                          (selectedDecades (react w))
                   else (selectedDecades (react w) ++ [decade])%list).
  { subst w1. by rewrite clickDecade_selection, Henabled. }
  destruct (isSelected (react w) decade) eqn:Hwas.
  - split; [|done]. unfold isSelected. rewrite Hsel.
    apply bool_decide_eq_false_2, List_filter_gone.
  - assert (Hnow : isSelected (react w1) decade = true).
    { unfold isSelected. rewrite Hsel. apply bool_decide_eq_true_2.
      apply elem_of_app. right. by left. }
    split; [exact Hnow|]. intros _. split; [exact Hsel|].
    rewrite clickDecade_selection. unfold isDisabled. rewrite Hnow. simpl.
    rewrite Hsel, List.filter_app. simpl. rewrite String.eqb_refl. simpl.
    rewrite app_nil_r. apply List_filter_other.
    unfold isSelected in Hwas. by apply bool_decide_eq_false_1 in Hwas.
Qed.

Lemma clickDecade_toggles_witness :
  let w := world (two_decades ∅) in
  let w1 := (clickDecade "1970s" w).2 in
  isSelected (react w1) "1970s" = negb (isSelected (react w) "1970s") ∧
  (isSelected (react w) "1970s" = false →
   selectedDecades (react w1) = (selectedDecades (react w) ++ ["1970s"])%list ∧
   selectedDecades (react (clickDecade "1970s" w1).2) = selectedDecades (react w)).
Proof.
  apply (clickDecade_toggles "1970s" (world (two_decades ∅))).
  vm_compute. reflexivity.
Defined.

(** *** The auto-save effect, the upload and the history *)

Lemma autoSave_skips now w :
  present (uploadedImage (react w)) = false ∨
  present (currentSessionId (react w)) = false ∨
  appState (react w) = idle →
  autoSave now w = (Normal tt, w).
Proof.
  intros Hguard. unfold autoSave, bind, gets, present in *.
  destruct (uploadedImage (react w)) as [uploaded|],
           (currentSessionId (react w)) as [sessionId|]; try done.
  destruct Hguard as [->|[->|Hidle]].
  - by rewrite andb_false_r.
  - by rewrite andb_false_r.
  - by rewrite bool_decide_eq_false_2 by (intros Hne; by apply Hne).
Qed.

Lemma autoSave_cases now w :
  autoSave now w = (Normal tt, w) ∨
  ∃ uploaded sessionId w',
    uploadedImage (react w) = Some uploaded ∧
    currentSessionId (react w) = Some sessionId ∧
    autoSave now w = (Normal tt, w') ∧
    history (react w')
    = upsert (newItem now (react w) sessionId uploaded) (history (react w)) ∧
    db w' = saved (db w) (newItem now (react w) sessionId uploaded).
Proof.
  destruct (uploadedImage (react w)) as [uploaded|] eqn:Himage;
    [|left; apply autoSave_skips; left; by rewrite Himage].
  destruct (currentSessionId (react w)) as [sessionId|] eqn:Hsession;
    [|left; apply autoSave_skips; right; left; by rewrite Hsession].
  destruct (truthy uploaded) eqn:Hu;
    [|left; apply autoSave_skips; left; by rewrite Himage].
  destruct (truthy sessionId) eqn:Hs;
    [|left; apply autoSave_skips; right; left; by rewrite Hsession].
  destruct (decide (appState (react w) = idle)) as [Hidle|Hstate];
    [left; apply autoSave_skips; by right; right|].
  right.
  destruct (autoSave_saves now w uploaded sessionId Himage Hsession Hstate Hu Hs)
    as (w' & Hrun & Hhistory & Hdb & _).
  by exists uploaded, sessionId, w'.
Qed.


(** X16.  A new photo starts afresh: after the upload the page shows the
    photo with no result and no session, the selection, the history and
    both stores are untouched, and the auto-save effect writes nothing
    (a session begins with the click on Generate). *)
Theorem upload_starts_afresh file files now w base64 :
  result file = Some base64 →
  ∃ w1, handleImageUpload (file :: files) w = (Normal tt, w1) ∧
        uploadedImage (react w1) = Some base64 ∧
        appState (react w1) = image_uploaded ∧
        generatedImages (react w1) = ∅ ∧
        currentSessionId (react w1) = None ∧
        selectedDecades (react w1) = selectedDecades (react w) ∧
        history (react w1) = history (react w) ∧
        localStorage w1 = localStorage w ∧ db w1 = db w ∧ trace w1 = trace w ∧
        autoSave now w1 = (Normal tt, w1).
Proof.
  intros Hresult. unfold handleImageUpload. rewrite Hresult.
  destruct (decoded file) as [[width height]|].
  - eexists. split; [reflexivity|]. simpl. do 9 (split; [done|]).
    apply autoSave_skips. right. by left.
  - eexists. split; [reflexivity|]. simpl. do 9 (split; [done|]).
    apply autoSave_skips. right. by left.
Qed.

Lemma upload_starts_afresh_witness :
  ∃ w1, handleImageUpload [photo] shown_world = (Normal tt, w1) ∧
        uploadedImage (react w1) = Some "data:image/png;base64,DDDD" ∧
        appState (react w1) = image_uploaded ∧
        generatedImages (react w1) = ∅ ∧
        currentSessionId (react w1) = None ∧
        selectedDecades (react w1) = selectedDecades shown ∧
        history (react w1) = history shown ∧
        localStorage w1 = localStorage shown_world ∧ db w1 = db shown_world ∧
        trace w1 = trace shown_world ∧
        autoSave 1700000020000 w1 = (Normal tt, w1).
Proof.
  apply (upload_starts_afresh photo [] 1700000020000 shown_world
           "data:image/png;base64,DDDD").
  reflexivity.
Defined.

Lemma handleDeleteHistoryItem_run id w :
  ∃ w1, handleDeleteHistoryItem id w = (Normal tt, w1) ∧
        history (react w1)
        = List.filter (λ item, negb (String.eqb (HistoryItem.id item) id))
            (history (react w)) ∧
        db w1 = delete id (db w) ∧
        localStorage w1 = localStorage w ∧ trace w1 = trace w ∧
        (currentSessionId (react w) = Some id →
         uploadedImage (react w1) = None ∧ appState (react w1) = idle ∧
         generatedImages (react w1) = ∅ ∧ currentSessionId (react w1) = None) ∧
        (currentSessionId (react w) ≠ Some id →
         same_session (react w) (react w1)).
Proof.
  unfold handleDeleteHistoryItem, bind, gets, try_catch, deleteHistoryItem,
    setHistory, modify. simpl.
  destruct (decide (currentSessionId (react w) = Some id)) as [Hcur|Hother].
  - rewrite bool_decide_eq_true_2 by done.
    eexists. split; [reflexivity|]. simpl. do 4 (split; [done|]).
    split; [done|]. by intros Hne.
  - rewrite bool_decide_eq_false_2 by done.
    eexists. split; [reflexivity|]. simpl. do 4 (split; [done|]).
    split; [by intros Heq|]. by intros _.
Qed.


(** X18.  What the auto-save effect stores is what opens again: a click
    in the history on the record saved for the hooks [s] gives back the
    photo, the result map, the selection, the stage and the identifier of
    [s], closes the sidebar and leaves the history and the stores alone;
    the aspect ratio comes back too unless it was 0. *)
Theorem saved_session_reopens now s sessionId uploaded w :
  uploadedImage s = Some uploaded →
  currentSessionId s = Some sessionId →
  ∃ w1, handleSelectHistoryItem (newItem now s sessionId uploaded) w = (Normal tt, w1) ∧
        same_session s (react w1) ∧
        isHistoryOpen (react w1) = false ∧
        history (react w1) = history (react w) ∧
        localStorage w1 = localStorage w ∧ db w1 = db w ∧ trace w1 = trace w ∧
        (¬ (imageAspectRatio s == 0)%Q →
         imageAspectRatio (react w1) = imageAspectRatio s).
Proof.
  intros Himage Hsession.
  eexists. split; [reflexivity|]. simpl.
  split; [by repeat split|]. do 5 (split; [done|]).
  intros Hratio.
  destruct (Qeq_bool (imageAspectRatio s) (Qmake 0 1)) eqn:Hzero; [|done].
  by apply Qeq_bool_eq in Hzero.
Qed.

Lemma saved_session_reopens_witness :
  ∃ w1, handleSelectHistoryItem
          (newItem 1700000009000 shown "1700000000000" "data:image/png;base64,AAAA")
          (world one_decade) = (Normal tt, w1) ∧
        same_session shown (react w1) ∧
        isHistoryOpen (react w1) = false ∧
        history (react w1) = history one_decade ∧
        localStorage w1 = ∅ ∧ db w1 = ∅ ∧ trace w1 = [] ∧
        (¬ (imageAspectRatio shown == 0)%Q →
         imageAspectRatio (react w1) = imageAspectRatio shown).
Proof.
  apply (saved_session_reopens 1700000009000 shown "1700000000000"
           "data:image/png;base64,AAAA" (world one_decade)).
  - reflexivity.
  - reflexivity.
Defined.

Lemma upsert_ids_NoDup newItem prev :
  NoDup (ids prev) → NoDup (ids (upsert newItem prev)).
Proof.
  intros Hnodup. unfold upsert, ids. simpl. rewrite fmap_take.
  pose proof (List_filter_sublist
                (λ item, negb (String.eqb (HistoryItem.id item) (HistoryItem.id newItem)))
                prev) as Hsub.
  apply NoDup_cons. split.
  - intros Hin. apply elem_of_take in Hin as (i & Hin%list_elem_of_lookup_2 & _).
    apply list_elem_of_fmap in Hin as (item & Hid & Hitem).
    apply list_elem_of_In, filter_In in Hitem as [_ Hitem].
    apply negb_true_iff, String.eqb_neq in Hitem. done.
  - eapply sublist_NoDup; [|apply sublist_take].
    eapply sublist_NoDup; [exact Hnodup|].
    by apply fmap_sublist.
Qed.

(** X19.  The history list stays sound under the two handlers that
    change it: from a list of at most 20 entries with distinct
    identifiers, the auto-save effect and [handleDeleteHistoryItem] each
    leave a list of at most 20 entries with distinct identifiers. *)
Theorem history_stays_sound now id w :
  NoDup (ids (history (react w))) →
  (length (history (react w)) ≤ 20)%nat →
  NoDup (ids (history (react (autoSave now w).2))) ∧
  (length (history (react (autoSave now w).2)) ≤ 20)%nat ∧
  NoDup (ids (history (react (handleDeleteHistoryItem id w).2))) ∧
  (length (history (react (handleDeleteHistoryItem id w).2)) ≤ 20)%nat.
Proof.
  intros Hnodup Hlen.
  assert (Hsave : NoDup (ids (history (react (autoSave now w).2))) ∧
                  (length (history (react (autoSave now w).2)) ≤ 20)%nat).
  { destruct (autoSave_cases now w)
      as [Hskip|(uploaded & sessionId & w' & _ & _ & Hrun & Hhistory & _)].
    - by rewrite Hskip.
    - rewrite Hrun. simpl. rewrite Hhistory.
      split; [by apply upsert_ids_NoDup|apply upsert_length]. }
  destruct Hsave as [Hsave1 Hsave2]. split; [done|]. split; [done|].
  destruct (handleDeleteHistoryItem_run id w) as (w1 & Hrun & Hhistory & _).
  rewrite Hrun. simpl. rewrite Hhistory.
  pose proof (List_filter_sublist
                (λ item, negb (String.eqb (HistoryItem.id item) id))
                (history (react w))) as Hsub.
  split.
  - eapply sublist_NoDup; [exact Hnodup|]. by apply fmap_sublist.
  - apply sublist_length in Hsub. lia.
Qed.

Lemma history_stays_sound_witness :
  NoDup (ids (history (react (autoSave 1700000020000 shown_world).2))) ∧
  (length (history (react (autoSave 1700000020000 shown_world).2)) ≤ 20)%nat ∧
  NoDup (ids (history (react (handleDeleteHistoryItem "1699999999999" shown_world).2))) ∧
  (length (history (react (handleDeleteHistoryItem "1699999999999" shown_world).2)) ≤ 20)%nat.
Proof.
  apply (history_stays_sound 1700000020000 "1699999999999" shown_world).
  - apply (bool_decide_unpack _). vm_compute. exact I.
  - vm_compute. lia.
Defined.

(** *** The migration *)

(** X20.  A legacy text that cannot be read is not lost: [initHistory]
    logs the failure, saves nothing and leaves the legacy key, and every
    other key of the storage, as it found them. *)
Theorem unreadable_legacy_is_kept JSON_parse_history w s :
  localStorage w !! "flashback_history" = Some s →
  truthy s = true →
  JSON_parse_history s = None →
  ∃ w1, initHistory JSON_parse_history w = (Normal tt, w1) ∧
        localStorage w1 = localStorage w ∧
        db w1 = db w ∧
        trace w1 = (trace w ++ [console_error "Failed to migrate history"])%list.
Proof.
  intros Hkey Htruthy Hparse.
  destruct (initHistory_unreadable JSON_parse_history w s Hkey Htruthy Hparse)
    as (w1 & Hrun & Hdb & Hls & Htrace).
  by exists w1.
Qed.

Lemma unreadable_legacy_is_kept_witness :
  ∃ w1, initHistory (λ _, None) legacy_world = (Normal tt, w1) ∧
        localStorage w1 = localStorage legacy_world ∧
        db w1 = db legacy_world ∧
        trace w1 = (trace legacy_world ++ [console_error "Failed to migrate history"])%list.
Proof.
  apply (unreadable_legacy_is_kept (λ _, None) legacy_world legacy_text).
  - vm_compute. reflexivity.
  - vm_compute. reflexivity.
  - reflexivity.
Defined.
End AppExtras.

(** ** The image modal *)

Module ImageModalFacts.
Import ImageModal.

Lemma handleNext_mod n s :
  0 < n → 0 ≤ currentIndex s < n →
  currentIndex (handleNext n s) = (currentIndex s + 1) mod n.
Proof.
  intros Hn Hi. unfold handleNext. simpl.
  destruct (decide (currentIndex s < n - 1)) as [Hlt|Hge].
  - rewrite bool_decide_eq_true_2 by done. by rewrite Z.mod_small by lia.
  - rewrite bool_decide_eq_false_2 by done.
    replace (currentIndex s + 1) with n by lia. by rewrite Z.mod_same by lia.
Qed.

Lemma iter_handleNext n s k :
  0 < n → 0 ≤ currentIndex s < n →
  currentIndex (Nat.iter k (handleNext n) s) = (currentIndex s + Z.of_nat k) mod n.
Proof.
  intros Hn Hi. induction k as [|k IH].
  - simpl. rewrite Z.add_0_r. by rewrite Z.mod_small.
  - rewrite Nat.iter_succ. rewrite handleNext_mod; [|done|].
    + rewrite IH, Z.add_mod_idemp_l by lia. f_equal. lia.
    + rewrite IH. apply Z.mod_pos_bound. lia.
Qed.

(** X21.  The carousel stays on a picture: with [n] pictures and an
    index between 0 and [n - 1], Previous and Next give an index in the
    same range, each undoes the other, [n] clicks on Next come back to the
    picture they started from, and both put the zoom back to 1. *)
Theorem carousel_stays_in_range n s :
  0 < n →
  0 ≤ currentIndex s < n →
  0 ≤ currentIndex (handleNext n s) < n ∧
  0 ≤ currentIndex (handlePrev n s) < n ∧
  currentIndex (handlePrev n (handleNext n s)) = currentIndex s ∧
  currentIndex (handleNext n (handlePrev n s)) = currentIndex s ∧
  currentIndex (Nat.iter (Z.to_nat n) (handleNext n) s) = currentIndex s ∧
  scale (handleNext n s) = 1%Q ∧ scale (handlePrev n s) = 1%Q.
Proof.
  intros Hn Hi.
  split; [|split; [|split; [|split; [|split; [|done]]]]].
  - unfold handleNext. simpl. case_bool_decide; lia.
  - unfold handlePrev. simpl. case_bool_decide; lia.
  - unfold handlePrev, handleNext. simpl. repeat case_bool_decide; lia.
  - unfold handlePrev, handleNext. simpl. repeat case_bool_decide; lia.
  - rewrite iter_handleNext by done. rewrite Z2Nat.id by lia.
    rewrite <- (Z.mul_1_l n) at 1. rewrite Z.mod_add by lia.
    by rewrite Z.mod_small.
Qed.

Lemma carousel_stays_in_range_witness :
  let s := initial 2 in
  0 ≤ currentIndex (handleNext 3 s) < 3 ∧
  0 ≤ currentIndex (handlePrev 3 s) < 3 ∧
  currentIndex (handlePrev 3 (handleNext 3 s)) = currentIndex s ∧
  currentIndex (handleNext 3 (handlePrev 3 s)) = currentIndex s ∧
  currentIndex (Nat.iter (Z.to_nat 3) (handleNext 3) s) = currentIndex s ∧
  scale (handleNext 3 s) = 1%Q ∧ scale (handlePrev 3 s) = 1%Q.
Proof.
  apply (carousel_stays_in_range 3 (initial 2)).
  - lia.
  - simpl. lia.
Defined.

(** X22.  The zoom stays between a half and three: whatever sequence of
    clicks on the two zoom buttons follows the opening of the modal, the
    scale is at least 0.5 and at most 3, and the picture shown is the one
    the modal opened on. *)
Theorem zoom_stays_in_bounds initialIndex (clicks : list Zoom) :
  let s := foldl zoom (initial initialIndex) clicks in
  (Qmake 1 2 <= scale s)%Q ∧ (scale s <= Qmake 3 1)%Q ∧
  currentIndex s = initialIndex.
Proof.
  induction clicks as [|click clicks IH] using rev_ind.
  { simpl. repeat split; by vm_compute. }
  rewrite foldl_snoc. cbv zeta in IH |- *.
  destruct IH as (Hlo & Hhi & Hindex).
  set (s := foldl zoom (initial initialIndex) clicks) in *.
  destruct click; simpl.
  - destruct (Q.min_spec (scale s + Qmake 1 4) (Qmake 3 1)) as [[Hlt Heq]|[Hle Heq]];
      rewrite Heq; repeat split; try done; lra.
  - destruct (Q.max_spec (scale s - Qmake 1 4) (Qmake 1 2)) as [[Hlt Heq]|[Hle Heq]];
      rewrite Heq; repeat split; try done; lra.
Qed.
End ImageModalFacts.
